(** * The DRAM FTP-to-HTTPS patcher and the paired-read concatenation script

    A shallow embedding of [scripts/patch_dram_https.py] (class
    [DRAMPatcher]) and of [scripts/concatenate_reads.py], with the
    properties of their specification settled against the code.

    Conventions.
    - A Python [str] is a list of Unicode code points ([N]).
    - The files the patcher touches are three named locations of a
      [world]; [print] appends a [message] to the world's [stdout].
      The content of a file is the text that [read()] returns for it;
      decoding and the translation of line ends are left out, and so are
      the failures of a file system other than a missing file.
    - A method is a function [world -> outcome A * world]: a small state
      and exception monad, so that a raised error keeps the effects that
      happened before it. *)

From Stdlib Require Import NArith String Ascii List Lia Bool.
From stdpp Require Import base option list gmap strings.

Import ListNotations.
Local Open Scope N_scope.
Local Open Scope nat_scope.

(** ** Text *)

Abbreviation text := (list N).

(** The code points of a string literal. *)
Definition str (s : string) : text :=
  map N_of_ascii (list_ascii_of_string s).
Arguments str s%_string.

Fixpoint starts_with (p s : text) : bool :=
  match p, s with
  | [], _ => true
  | _ :: _, [] => false
  | a :: p', b :: s' => N.eqb a b && starts_with p' s'
  end.

Module Re.

(** ** The fragment of Python's [re] the scripts use

    Every pattern of the patcher is either a literal (ordinary characters
    and backslash-escaped punctuation) or a literal followed by one
    negated character set under [+] at the very end of the pattern (the
    detection pattern: the scheme, then one or more characters that are
    neither whitespace nor a quote). *)

Inductive regex :=
| Literal (l : text)
| LiteralNegSetPlus (l : text) (excluded : N -> bool).

(** [\s] on [str] patterns: Unicode whitespace. *)
Definition is_space (c : N) : bool :=
  ((9 <=? c) && (c <=? 13) || (28 <=? c) && (c <=? 32)
   || (c =? 133) || (c =? 160) || (c =? 5760)
   || (8192 <=? c) && (c <=? 8202)
   || (c =? 8232) || (c =? 8233) || (c =? 8239) || (c =? 8287)
   || (c =? 12288))%N.

(** Length of the longest prefix of [s] whose characters are all outside
    the excluded set: what a greedy [[^...]+] in final position takes. *)
Fixpoint run_length (excluded : N -> bool) (s : text) : nat :=
  match s with
  | [] => 0
  | c :: s' => if excluded c then 0 else S (run_length excluded s')
  end.

(** [match_at r s]: the length of the match of [r] anchored at the start
    of [s], if there is one. *)
Definition match_at (r : regex) (s : text) : option nat :=
  match r with
  | Literal l => if starts_with l s then Some (length l) else None
  | LiteralNegSetPlus l excluded =>
      if starts_with l s then
        match run_length excluded (drop (length l) s) with
        | 0 => None
        | S n => Some (length l + S n)
        end
      else None
  end.

(** The scan shared by [re.findall] and [re.sub]: the text cut into the
    leftmost non-overlapping matches and the characters between them.
    [skip] counts the characters still covered by the last match. An
    empty match is reported in front of the character it precedes and at
    the end of the text, where Python reports it. *)
Inductive segment :=
| Gap (c : N)
| Match (m : text).

Fixpoint segments_from (r : regex) (skip : nat) (s : text) : list segment :=
  match s with
  | [] =>
      match skip, match_at r [] with
      | 0, Some _ => [Match []]
      | _, _ => []
      end
  | c :: s' =>
      match skip with
      | S k => segments_from r k s'
      | 0 =>
          match match_at r s with
          | Some 0 => Match [] :: Gap c :: segments_from r 0 s'
          | Some (S n) => Match (take (S n) s) :: segments_from r n s'
          | None => Gap c :: segments_from r 0 s'
          end
      end
  end.

Definition segments (r : regex) (s : text) : list segment :=
  segments_from r 0 s.

(** [re.findall(r, s)] for a pattern without groups. *)
Fixpoint matches_of (segs : list segment) : list text :=
  match segs with
  | [] => []
  | Gap _ :: segs' => matches_of segs'
  | Match m :: segs' => m :: matches_of segs'
  end.

Definition findall (r : regex) (s : text) : list text :=
  matches_of (segments r s).

(** [re.sub(r, repl, s)] for a replacement without backslashes. *)
Fixpoint rebuild (repl : text) (segs : list segment) : text :=
  match segs with
  | [] => []
  | Gap c :: segs' => c :: rebuild repl segs'
  | Match _ :: segs' => repl ++ rebuild repl segs'
  end.

Definition sub (r : regex) (repl s : text) : text :=
  rebuild repl (segments r s).

(** A raw pattern string read as a literal: a backslash makes the next
    character literal, every other character stands for itself. *)
Fixpoint unescape (raw : text) : text :=
  match raw with
  | [] => []
  | c :: raw' =>
      if N.eqb c 92 then
        match raw' with
        | [] => []
        | d :: raw'' => d :: unescape raw''
        end
      else c :: unescape raw'
  end.

Definition is_alnum (c : N) : bool :=
  ((48 <=? c) && (c <=? 57) || (65 <=? c) && (c <=? 90)
   || (97 <=? c) && (c <=? 122))%N.

(** The characters [re] gives a meaning to when they are not escaped:
    [. ^ $ * + ? { } [ ] \ | ( )]. *)
Definition is_meta (c : N) : bool :=
  existsb (N.eqb c) (str ".^$*+?{}[]\|()").

(** [unescape] is what [re] does with [raw] when every backslash is
    followed by a character that is neither a letter nor a digit, and no
    special character occurs without a backslash. *)
Fixpoint is_literal_pattern (raw : text) : bool :=
  match raw with
  | [] => true
  | c :: raw' =>
      if N.eqb c 92 then
        match raw' with
        | [] => false
        | d :: raw'' => negb (is_alnum d) && is_literal_pattern raw''
        end
      else negb (is_meta c) && is_literal_pattern raw'
  end.

(** [re.compile] on that fragment. *)
Definition compile (raw : text) : regex := Literal (unescape raw).

End Re.

(** ** The world of the patcher *)

(** The files [DRAMPatcher] names: [self.handler_file], its sibling with
    the suffix [.py.original], and [database_processing.py] in the
    directory of the backup root named after a timestamp. The three are
    different files: the first two differ in their name, and the
    installation directory is not a directory of the backup root. *)
Inductive path :=
| HandlerFile
| OriginalBackup
| BackupFile (timestamp : string).

Inductive category := URL | BUG.

(** One entry of [changes_made]. *)
Record change := Change {
  change_type : category;
  change_pattern : string;
  change_replacement : string;
  change_count : nat
}.

(** What the methods print, without the layout. Python prints the
    distinct URLs in the order of a [set], which is not specified; here
    they are the list of matches with its repetitions removed. *)
Inductive message :=
| BackupCreated (timestamp : string)
| OriginalSaved
| NoBackupFound
| RestoredFrom
| FoundFtpUrls (count : nat) (distinct : list text)
| NoFtpUrlsFound
| NoChangesNeeded
| ChangesToBeApplied (changes : list change)
| DryRunNoChangesWritten
| PatchApplied
| VerificationResults (remaining : nat) (distinct : list text) (https : nat)
| VerificationPassed
| VerificationWarning.

(** [backups] maps a timestamp to its directory under the backup root,
    when that directory exists, and the directory to its copy of the
    handler file, when it holds one. *)
Record world := World {
  handler_file : option text;
  original_backup : option text;
  backups : gmap string (option text);
  stdout : list message
}.

Inductive exn :=
| FileNotFoundError (p : path).

Inductive outcome (A : Type) :=
| Return (a : A)
| Raise (e : exn).
Arguments Return {A} a.
Arguments Raise {A} e.

Definition method (A : Type) : Type := world -> outcome A * world.

Definition ret {A} (a : A) : method A := fun w => (Return a, w).

Definition bind {A B} (m : method A) (k : A -> method B) : method B :=
  fun w =>
    match m w with
    | (Return a, w') => k a w'
    | (Raise e, w') => (Raise e, w')
    end.

Definition raise {A} (e : exn) : method A := fun w => (Raise e, w).

Declare Scope method_scope.
Delimit Scope method_scope with method.
Bind Scope method_scope with method.
Notation "x <- m ;; k" := (bind m (fun x => k))
  (at level 100, m at next level, right associativity) : method_scope.
Notation "m ;; k" := (bind m (fun _ => k))
  (at level 100, right associativity) : method_scope.
Local Open Scope method_scope.

(** The world after some more lines of output. *)
Definition printed (w : world) (msgs : list message) : world :=
  World (handler_file w) (original_backup w) (backups w) (stdout w ++ msgs).

Definition print (msg : message) : method unit :=
  fun w => (Return tt, printed w [msg]).

Definition lookup_file (p : path) (w : world) : option text :=
  match p with
  | HandlerFile => handler_file w
  | OriginalBackup => original_backup w
  | BackupFile ts =>
      match backups w !! ts with
      | Some (Some content) => Some content
      | _ => None
      end
  end.

(** [Path.exists()] *)
Definition path_exists (p : path) : method bool :=
  fun w =>
    match lookup_file p w with
    | Some _ => (Return true, w)
    | None => (Return false, w)
    end.

(** [open(p, 'r')] and [read()] *)
Definition read_text (p : path) : method text :=
  fun w =>
    match lookup_file p w with
    | Some content => (Return content, w)
    | None => (Raise (FileNotFoundError p), w)
    end.

(** [open(p, 'w')] and [write(content)]: the file is created or
    truncated; its directory has to exist. *)
Definition write_text (p : path) (content : text) : method unit :=
  fun w =>
    match p with
    | HandlerFile =>
        (Return tt,
         World (Some content) (original_backup w) (backups w) (stdout w))
    | OriginalBackup =>
        (Return tt,
         World (handler_file w) (Some content) (backups w) (stdout w))
    | BackupFile ts =>
        match backups w !! ts with
        | Some _ =>
            (Return tt,
             World (handler_file w) (original_backup w)
                   (<[ts := Some content]> (backups w)) (stdout w))
        | None => (Raise (FileNotFoundError p), w)
        end
    end.

(** [shutil.copy2(src, dst)], as far as the content goes. *)
Definition copy2 (src dst : path) : method unit :=
  content <- read_text src ;;
  write_text dst content.

(** [backup_path.mkdir(parents=True, exist_ok=True)] *)
Definition mkdir (ts : string) : method unit :=
  fun w =>
    match backups w !! ts with
    | Some _ => (Return tt, w)
    | None =>
        (Return tt,
         World (handler_file w) (original_backup w)
               (<[ts := None]> (backups w)) (stdout w))
    end.

(** ** [DRAMPatcher] *)

Module DRAMPatcher.

Import Re.

(** The dictionaries keep the order in which their entries are written. *)
Definition URL_REPLACEMENTS : list (string * string) :=
  [ ("ftp://ftp\.genome\.jp/", "https://www.genome.jp/ftp/");
    ("ftp://ftp\.ebi\.ac\.uk/pub/databases/Pfam/",
     "https://ftp.ebi.ac.uk/pub/databases/Pfam/");
    ("ftp://ftp\.uniprot\.org/pub/databases/uniprot/",
     "https://ftp.uniprot.org/pub/databases/uniprot/");
    ("ftp://ftp\.ebi\.ac\.uk/pub/databases/merops/",
     "https://ftp.ebi.ac.uk/pub/databases/merops/");
    ("ftp://bcb\.unl\.edu/dbCAN2/", "https://bcb.unl.edu/dbCAN2/");
    ("ftp://fileshare\.csb\.univie\.ac\.at/vog/",
     "https://fileshare.csb.univie.ac.at/vog/") ]%string.

Definition BUG_FIXES : list (string * string) :=
  [ ("path\.join\(hmm_dir, 'VOG\*\.hmm'\)",
     "path.join(hmm_dir, 'hmm', 'VOG*.hmm')") ]%string.

(** The set excluded by the detection patterns: whitespace, the single
    quote and the double quote. *)
Definition not_url_char (c : N) : bool :=
  is_space c || N.eqb c 39 || N.eqb c 34.

Definition ftp_pattern : regex := LiteralNegSetPlus (str "ftp://") not_url_char.
Definition https_pattern : regex :=
  LiteralNegSetPlus (str "https://") not_url_char.

Definition create_backup (now : string) : method path :=
  let timestamp := now in
  mkdir timestamp ;;
  let backup_file := BackupFile timestamp in
  copy2 HandlerFile backup_file ;;
  original_exists <- path_exists OriginalBackup ;;
  (if negb original_exists then copy2 HandlerFile OriginalBackup
   else ret tt) ;;
  print (BackupCreated timestamp) ;;
  print OriginalSaved ;;
  ret backup_file.

Definition restore_backup : method bool :=
  original_exists <- path_exists OriginalBackup ;;
  if negb original_exists then
    print NoBackupFound ;;
    ret false
  else
    copy2 OriginalBackup HandlerFile ;;
    print RestoredFrom ;;
    ret true.

Definition analyze_file : method (list text) :=
  content <- read_text HandlerFile ;;
  let ftp_urls := findall ftp_pattern content in
  (match ftp_urls with
   | _ :: _ => print (FoundFtpUrls (length ftp_urls) (remove_dups ftp_urls))
   | [] => print NoFtpUrlsFound
   end) ;;
  ret ftp_urls.

(** One turn of either loop of [apply_patch]. *)
Definition apply_rule (kind : category)
    (state : text * list change) (rule : string * string)
    : text * list change :=
  let '(modified_content, changes_made) := state in
  let '(pattern, replacement) := rule in
  let matches := findall (compile (str pattern)) modified_content in
  match matches with
  | _ :: _ =>
      (sub (compile (str pattern)) (str replacement) modified_content,
       changes_made ++ [Change kind pattern replacement (length matches)])
  | [] => state
  end.

Definition apply_rules (original_content : text) : text * list change :=
  let state := (original_content, []) in
  let state := fold_left (apply_rule URL) URL_REPLACEMENTS state in
  fold_left (apply_rule BUG) BUG_FIXES state.

Definition apply_patch (dry_run : bool) : method bool :=
  original_content <- read_text HandlerFile ;;
  let '(modified_content, changes_made) := apply_rules original_content in
  match changes_made with
  | [] =>
      print NoChangesNeeded ;;
      ret false
  | _ :: _ =>
      print (ChangesToBeApplied changes_made) ;;
      if dry_run then
        print DryRunNoChangesWritten ;;
        ret true
      else
        write_text HandlerFile modified_content ;;
        print PatchApplied ;;
        ret true
  end.

Definition verify_patch : method bool :=
  content <- read_text HandlerFile ;;
  let remaining_ftp := findall ftp_pattern content in
  let https_urls := findall https_pattern content in
  print (VerificationResults (length remaining_ftp)
           (remove_dups remaining_ftp) (length https_urls)) ;;
  if Nat.eqb (length remaining_ftp) 0 then
    print VerificationPassed ;;
    ret true
  else
    print VerificationWarning ;;
    ret false.

End DRAMPatcher.

(** ** Sequences of operations on one target *)

Inductive operation :=
| CreateBackup (now : string)
| RestoreBackup
| ApplyPatch (dry_run : bool)
| AnalyzeFile
| VerifyPatch.

(** The world an operation leaves behind, whether it returns or raises. *)
Definition perform (w : world) (op : operation) : world :=
  match op with
  | CreateBackup now => snd (DRAMPatcher.create_backup now w)
  | RestoreBackup => snd (DRAMPatcher.restore_backup w)
  | ApplyPatch dry_run => snd (DRAMPatcher.apply_patch dry_run w)
  | AnalyzeFile => snd (DRAMPatcher.analyze_file w)
  | VerifyPatch => snd (DRAMPatcher.verify_patch w)
  end.

Definition perform_all (ops : list operation) (w : world) : world :=
  fold_left perform ops w.

(** ** The specification's reading of the patcher *)

Module Spec.

Import Re.

(** The Rule Set: every rule with its category, URL rules first. *)
Definition rule_set : list (category * (string * string)) :=
  map (pair URL) DRAMPatcher.URL_REPLACEMENTS
  ++ map (pair BUG) DRAMPatcher.BUG_FIXES.

Definition count_matches (pattern : string) (current : text) : nat :=
  length (findall (compile (str pattern)) current).

(** For each rule in order: count the matches against the current text;
    if the count is positive, substitute every occurrence and append a
    Change Record entry. *)
Fixpoint apply_in_order (rules : list (category * (string * string)))
    (current : text) (record : list change) : text * list change :=
  match rules with
  | [] => (current, record)
  | (kind, (pattern, replacement)) :: rest =>
      let count := count_matches pattern current in
      if Nat.ltb 0 count then
        apply_in_order rest
          (sub (compile (str pattern)) (str replacement) current)
          (record ++ [Change kind pattern replacement count])
      else apply_in_order rest current record
  end.

(** A legacy reference: the scheme followed by one or more characters
    that are neither whitespace nor a quote. *)
Definition legacy_reference (u : text) : Prop :=
  exists tail, u = str "ftp://" ++ tail /\ tail <> [] /\
    Forall (fun c => DRAMPatcher.not_url_char c = false) tail.

(** [ends_reference s]: a reference that is followed by [s] cannot be
    made longer. *)
Definition ends_reference (s : text) : Prop :=
  match s with
  | [] => True
  | c :: _ => DRAMPatcher.not_url_char c = true
  end.

(** [references s urls]: reading [s] from left to right, [urls] are the
    legacy references met, each as long as possible, none overlapping
    the one before. *)
Inductive references : text -> list text -> Prop :=
| references_end : references [] []
| references_skip c s urls :
    (forall u t, legacy_reference u -> c :: s <> u ++ t) ->
    references s urls ->
    references (c :: s) urls
| references_take u s urls :
    legacy_reference u -> ends_reference s ->
    references s urls ->
    references (u ++ s) (u :: urls).

(** [absent p s]: the literal [p] is found at no offset of [s]. *)
Definition absent (p s : text) : Prop :=
  forall i, starts_with p (drop i s) = false.

End Spec.

(** ** When a replacement can create an occurrence of a pattern

    A new occurrence of the literal [q] in the result of a substitution
    has to overlap an inserted copy of the replacement [r]: either it
    starts inside the copy, or the copy starts inside it. *)

Fixpoint suffixes (l : text) : list text :=
  match l with
  | [] => []
  | _ :: l' => l :: suffixes l'
  end.

Definition agree (x y : text) : bool :=
  starts_with x y || starts_with y x.

Definition clash (q r : text) : bool :=
  existsb (fun r' => agree r' q) (suffixes r)
  || existsb (fun q' => agree r q') (suffixes q).

Definition patterns : list text :=
  map (fun rule => Re.unescape (str (fst rule)))
      (DRAMPatcher.URL_REPLACEMENTS ++ DRAMPatcher.BUG_FIXES).

Definition replacements : list text :=
  map (fun rule => str (snd rule))
      (DRAMPatcher.URL_REPLACEMENTS ++ DRAMPatcher.BUG_FIXES).

(** ** [concatenate_reads.py] *)

Module ConcatenateReads.

(** What [SeqIO.parse(handle, 'fasta')] yields for one entry, as far as
    the script reads it: [record.id] and [str(record.seq)]. *)
Record seq_record := SeqRecord {
  id : text;
  seq : text
}.

Definition newline : text := [10%N].

(** The body of the loop: the text of one [out_handle.write]. *)
Definition write_record (fwd_record rev_record : seq_record) : text :=
  let concat_seq := seq fwd_record ++ str "NNNNNNNNNN" ++ seq rev_record in
  str ">" ++ id fwd_record ++ newline ++ concat_seq ++ newline.

(** The loop over [zip(forward, reverse)]: the writes, in order. *)
Fixpoint writes (forward reverse : list seq_record) : list text :=
  match forward, reverse with
  | fwd_record :: forward', rev_record :: reverse' =>
      write_record fwd_record rev_record :: writes forward' reverse'
  | _, _ => []
  end.

(** The content of [Concatenated_Unmerged.fasta] when the script ends. *)
Definition output (forward reverse : list seq_record) : text :=
  concat (writes forward reverse).

End ConcatenateReads.

(** ** The script: [__init__], [_find_dram_path] and [main] *)

Module Main.

Import DRAMPatcher.

(** What the script asks of its surroundings besides the files of the
    installation: whether a path given on the command line exists, and
    the directory of the module [mag_annotator] when it can be
    imported. *)
Record environment := Environment {
  dir_exists : string -> bool;
  mag_annotator : option string
}.

(** The namespace [parse_args] returns. *)
Record arguments := Namespace {
  arg_dram_path : option string;
  arg_dry_run : bool;
  arg_no_backup : bool;
  arg_restore : bool;
  arg_verify_only : bool
}.

(** What can be raised inside the [try] of [main]. *)
Inductive main_exn :=
| MethodError (e : exn)
| ProvidedPathDoesNotExist (provided_path : string)
| CouldNotAutoDetect.

(** The lines [main] and [_find_dram_path] print themselves; the last
    one goes to the standard error. *)
Inductive main_message :=
| Initializing
| AutoDetected (auto_path : string)
| InstallationFound (dram_path : string)
| TargetFile (dram_path : string)
| RestoringFromBackup
| RestoreComplete
| AnalyzingCurrentState
| AnalyzingFile
| AppearsAlreadyPatched
| CreatingBackup
| ApplyingPatch
| PatchComplete
| ErrorLine (e : main_exn).

(** The files of the installation with the output of the methods, and
    the lines of the script, each with the number of lines the methods
    had printed before it. *)
Record session := Session {
  files : world;
  console : list (nat * main_message)
}.

Inductive script_outcome (A : Type) :=
| Done (a : A)
| Failed (e : main_exn).
Arguments Done {A} a.
Arguments Failed {A} e.

Definition script (A : Type) : Type := session -> script_outcome A * session.

Definition done {A} (a : A) : script A := fun s => (Done a, s).

Definition fail {A} (e : main_exn) : script A := fun s => (Failed e, s).

Definition and_then {A B} (m : script A) (k : A -> script B) : script B :=
  fun s =>
    match m s with
    | (Done a, s') => k a s'
    | (Failed e, s') => (Failed e, s')
    end.

Declare Scope script_scope.
Delimit Scope script_scope with script.
Bind Scope script_scope with script.
Notation "x <- m ;; k" := (and_then m (fun x => k))
  (at level 100, m at next level, right associativity) : script_scope.
Notation "m ;; k" := (and_then m (fun _ => k))
  (at level 100, right associativity) : script_scope.

(** A line of the script. *)
Definition say (msg : main_message) : script unit :=
  fun s =>
    (Done tt,
     Session (files s) (console s ++ [(length (stdout (files s)), msg)])).

(** A call of a method of the patcher. *)
Definition call {A} (m : method A) : script A :=
  fun s =>
    match m (files s) with
    | (Return a, w') => (Done a, Session w' (console s))
    | (Raise e, w') => (Failed (MethodError e), Session w' (console s))
    end.

(** [if provided_path:] is false for [None] and for the empty string. *)
Definition _find_dram_path (env : environment)
    (provided_path : option string) : script string :=
  match provided_path with
  | Some (String c rest) =>
      let path := String c rest in
      if dir_exists env path then done path
      else fail (ProvidedPathDoesNotExist path)
  | _ =>
      match mag_annotator env with
      | Some auto_path =>
          (say (AutoDetected auto_path) ;;
           done auto_path)%script
      | None => fail CouldNotAutoDetect
      end
  end.

(** The patcher is known by its [dram_path]; [handler_file] and
    [backup_dir] are the locations of the [world]. *)
Definition __init__ (env : environment) (dram_path : option string)
    : script string :=
  _find_dram_path env dram_path.

(** The branch [if args.restore:]. *)
Definition restore_mode : script nat :=
  (say RestoringFromBackup ;;
   restored <- call restore_backup ;;
   (if restored then
      say RestoreComplete ;;
      _ <- call verify_patch ;;
      done tt
    else done tt) ;;
   done 0)%script.

(** The branch [if args.verify_only:]. *)
Definition verify_only_mode : script nat :=
  (say AnalyzingCurrentState ;;
   _ <- call analyze_file ;;
   _ <- call verify_patch ;;
   done 0)%script.

(** The rest of the [try]: the normal patch mode. *)
Definition patch_mode (now : string) (args : arguments) : script nat :=
  (say AnalyzingFile ;;
   ftp_urls <- call analyze_file ;;
   match ftp_urls with
   | [] =>
       say AppearsAlreadyPatched ;;
       done 0
   | _ :: _ =>
       (if negb (arg_no_backup args) then
          say CreatingBackup ;;
          _ <- call (create_backup now) ;;
          done tt
        else done tt) ;;
       say ApplyingPatch ;;
       applied <- call (apply_patch (arg_dry_run args)) ;;
       (if applied then
          if negb (arg_dry_run args) then
            _ <- call verify_patch ;;
            say PatchComplete
          else done tt
        else done tt) ;;
       done 0
   end)%script.

(** The body of the [try]. *)
Definition main_try (env : environment) (now : string) (args : arguments)
    : script nat :=
  (say Initializing ;;
   patcher <- __init__ env (arg_dram_path args) ;;
   say (InstallationFound patcher) ;;
   say (TargetFile patcher) ;;
   if arg_restore args then restore_mode
   else if arg_verify_only args then verify_only_mode
   else patch_mode now args)%script.

(** [main]: the exit code and the session it leaves. [now] is what the
    clock gives to [create_backup]. *)
Definition main (env : environment) (now : string) (args : arguments)
    (s : session) : nat * session :=
  match main_try env now args s with
  | (Done code, s') => (code, s')
  | (Failed e, s') =>
      (1, Session (files s')
                  (console s' ++ [(length (stdout (files s')), ErrorLine e)]))
  end.

End Main.

(** ** Targets whose FTP URLs all have a host of the table *)

(** [covered known s]: at every offset of [s] where the detection
    pattern matches, a literal of [known] is found. *)
Definition covered (known : list text) (s : text) : Prop :=
  forall i,
    Re.match_at DRAMPatcher.ftp_pattern (drop i s) <> None ->
    exists q, In q known /\ starts_with q (drop i s) = true.

(** At every offset where the detection pattern matches, a pattern of
    [URL_REPLACEMENTS] matches too. *)
Definition known_hosts_only (content : text) : bool :=
  forallb
    (fun rest =>
       match Re.match_at DRAMPatcher.ftp_pattern rest with
       | Some _ =>
           existsb (fun rule => starts_with (Re.unescape (str (fst rule))) rest)
                   DRAMPatcher.URL_REPLACEMENTS
       | None => true
       end)
    (suffixes content).

(** * Facts *)

(** ** Test runs *)

Example findall_does_not_overlap :
  Re.findall (Re.Literal (str "aa")) (str "aaaaa") = [str "aa"; str "aa"].
Proof. reflexivity. Qed.

Example sub_replaces_every_match :
  Re.sub (Re.Literal (str "ab")) (str "-") (str "xabaabab") = str "x-a--".
Proof. reflexivity. Qed.

Example detection_stops_at_quote_and_space :
  Re.findall DRAMPatcher.ftp_pattern
    (str "get('ftp://a.b/c') or ftp://d e ftp:// ftp://'")
  = [str "ftp://a.b/c"; str "ftp://d"].
Proof. reflexivity. Qed.

Example escaped_pattern_is_literal :
  Re.unescape (str "path\.join\(hmm_dir, 'VOG\*\.hmm'\)")
  = str "path.join(hmm_dir, 'VOG*.hmm')".
Proof. reflexivity. Qed.

(** The scenario of the specification: one KEGG URL. *)
Example kegg_url_is_rewritten :
  DRAMPatcher.apply_rules (str "ftp://ftp.genome.jp/pub/x.hmm")
  = (str "https://www.genome.jp/ftp/pub/x.hmm",
     [Change URL "ftp://ftp\.genome\.jp/" "https://www.genome.jp/ftp/" 1]).
Proof. reflexivity. Qed.

Example kegg_url_then_verify :
  let w := World (Some (str "ftp://ftp.genome.jp/pub/x.hmm")) None ∅ [] in
  fst (DRAMPatcher.verify_patch (snd (DRAMPatcher.apply_patch false w)))
  = Return true.
Proof. reflexivity. Qed.

Example both_categories_fire_in_order :
  map change_type
    (snd (DRAMPatcher.apply_rules
            (str "path.join(hmm_dir, 'VOG*.hmm') ftp://bcb.unl.edu/dbCAN2/x")))
  = [URL; BUG].
Proof. reflexivity. Qed.

(** ** Prefix tests *)

Lemma starts_with_spec (p s : text) :
  starts_with p s = true <-> exists t, s = p ++ t.
Proof.
  revert s. induction p as [|a p IH]; intros s; simpl.
  - split; [intros _; exists s; reflexivity | reflexivity].
  - destruct s as [|b s]; simpl.
    + split; [discriminate | intros [t Ht]; discriminate].
    + rewrite andb_true_iff, N.eqb_eq, IH. split.
      * intros [-> [t ->]]. exists t. reflexivity.
      * intros [t Ht]. injection Ht as -> ->. split; [reflexivity | eauto].
Qed.

Lemma starts_with_app (p t : text) : starts_with p (p ++ t) = true.
Proof. apply starts_with_spec. eauto. Qed.

Lemma starts_with_length (p s : text) :
  starts_with p s = true -> length p <= length s.
Proof.
  intros [t ->]%starts_with_spec. rewrite length_app. lia.
Qed.

Lemma starts_with_drop (p s : text) :
  starts_with p s = true -> s = p ++ drop (length p) s.
Proof.
  intros [t ->]%starts_with_spec. rewrite drop_app_length. reflexivity.
Qed.

Lemma starts_with_weaken (p s t : text) :
  starts_with p s = true -> starts_with p (s ++ t) = true.
Proof.
  intros [u ->]%starts_with_spec. rewrite <- app_assoc. apply starts_with_app.
Qed.

(** A literal found at the start of [a ++ x] agrees with [a] as far as
    both go. *)
Lemma starts_with_agree (q a x : text) :
  starts_with q (a ++ x) = true -> agree a q = true.
Proof.
  unfold agree. revert a. induction q as [|c q IH]; intros a H.
  - destruct a; reflexivity.
  - destruct a as [|b a]; [reflexivity|]. simpl in *.
    apply andb_true_iff in H as [Hcb H]. apply N.eqb_eq in Hcb as ->.
    rewrite N.eqb_refl. simpl. apply IH. exact H.
Qed.

Lemma text_length_ind (P : text -> Prop) :
  (forall s, (forall t, length t < length s -> P t) -> P s) ->
  forall s, P s.
Proof.
  intros step s. remember (length s) as n eqn:Hn. revert s Hn.
  induction n as [n IH] using lt_wf_ind. intros s ->.
  apply step. intros t Ht. exact (IH (length t) Ht t eq_refl).
Qed.

(** ** The scan *)

Module ReFacts.

Import Re.

Lemma run_length_le excluded (s : text) : run_length excluded s <= length s.
Proof.
  induction s as [|c s IH]; simpl; [lia|]. destruct (excluded c); lia.
Qed.

Lemma run_length_app excluded (s t : text) :
  run_length excluded s <= run_length excluded (s ++ t).
Proof.
  induction s as [|c s IH]; simpl; [lia|]. destruct (excluded c); lia.
Qed.

Lemma match_at_le r (s : text) n : match_at r s = Some n -> n <= length s.
Proof.
  destruct r as [l|l excluded]; simpl.
  - destruct (starts_with l s) eqn:H; [|discriminate].
    intros [= <-]. apply starts_with_length, H.
  - destruct (starts_with l s) eqn:H; [|discriminate].
    pose proof (run_length_le excluded (drop (length l) s)) as Hle.
    apply starts_with_length in H. rewrite length_drop in Hle.
    destruct (run_length excluded (drop (length l) s)); [discriminate|].
    intros [= <-]. lia.
Qed.

(** A pattern that does not match the empty text never matches an empty
    piece of any text. *)
Lemma match_at_pos r (s : text) n :
  match_at r [] = None -> match_at r s = Some n -> 0 < n.
Proof.
  destruct r as [l|l excluded]; simpl.
  - destruct l as [|a l]; [discriminate|]. intros _.
    destruct (starts_with (a :: l) s); [|discriminate].
    intros [= <-]. simpl. lia.
  - intros _. destruct (starts_with l s); [|discriminate].
    destruct (run_length excluded (drop (length l) s)); [discriminate|].
    intros [= <-]. lia.
Qed.

(** A match at the start of [p] is still one when [p] goes on. *)
Lemma match_at_extend r (p t : text) n :
  match_at r p = Some n -> match_at r (p ++ t) <> None.
Proof.
  destruct r as [l|l excluded]; simpl.
  - destruct (starts_with l p) eqn:H; [|discriminate]. intros _.
    rewrite (starts_with_weaken _ _ t H). discriminate.
  - destruct (starts_with l p) eqn:H; [|discriminate].
    rewrite (starts_with_weaken _ _ t H).
    rewrite drop_app_le by (apply starts_with_length, H).
    pose proof (run_length_app excluded (drop (length l) p) t) as Hle.
    destruct (run_length excluded (drop (length l) p)); [discriminate|].
    intros _.
    destruct (run_length excluded (drop (length l) p ++ t)); [lia|].
    discriminate.
Qed.

Lemma segments_from_drop r k (s : text) :
  k <= length s -> segments_from r k s = segments_from r 0 (drop k s).
Proof.
  revert k. induction s as [|c s IH]; intros k Hk.
  - simpl in Hk. replace k with 0 by lia. reflexivity.
  - destruct k as [|k]; [reflexivity|]. simpl in *. apply IH. lia.
Qed.

Lemma segments_nil r : match_at r [] = None -> segments r [] = [].
Proof. unfold segments. simpl. intros ->. reflexivity. Qed.

Lemma segments_miss r c (s : text) :
  match_at r (c :: s) = None ->
  segments r (c :: s) = Gap c :: segments r s.
Proof. unfold segments. simpl. intros ->. reflexivity. Qed.

Lemma segments_hit r (s : text) n :
  0 < n -> match_at r s = Some n ->
  segments r s = Match (take n s) :: segments r (drop n s).
Proof.
  intros Hn H. pose proof (match_at_le _ _ _ H) as Hle.
  destruct s as [|c s]; [simpl in Hle; lia|].
  destruct n as [|n]; [lia|].
  unfold segments. cbn [segments_from]. rewrite H.
  rewrite segments_from_drop by (simpl in Hle; lia). reflexivity.
Qed.

Lemma findall_nil r : match_at r [] = None -> findall r [] = [].
Proof.
  intros H. unfold findall. rewrite segments_nil by exact H. reflexivity.
Qed.

Lemma findall_miss r c (s : text) :
  match_at r (c :: s) = None -> findall r (c :: s) = findall r s.
Proof.
  intros H. unfold findall. rewrite segments_miss by exact H. reflexivity.
Qed.

Lemma findall_hit r (s : text) n :
  0 < n -> match_at r s = Some n ->
  findall r s = take n s :: findall r (drop n s).
Proof.
  intros Hn H. unfold findall. rewrite (segments_hit _ _ _ Hn H). reflexivity.
Qed.

Lemma sub_nil r repl : match_at r [] = None -> sub r repl [] = [].
Proof. intros H. unfold sub. rewrite segments_nil by exact H. reflexivity. Qed.

Lemma sub_miss r repl c (s : text) :
  match_at r (c :: s) = None -> sub r repl (c :: s) = c :: sub r repl s.
Proof. intros H. unfold sub. rewrite segments_miss by exact H. reflexivity. Qed.

Lemma sub_hit r repl (s : text) n :
  0 < n -> match_at r s = Some n ->
  sub r repl s = repl ++ sub r repl (drop n s).
Proof.
  intros Hn H. unfold sub. rewrite (segments_hit _ _ _ Hn H). reflexivity.
Qed.

(** [findall] is empty exactly when the pattern matches at no offset. *)
Lemma findall_empty_iff r (s : text) :
  match_at r [] = None ->
  findall r s = [] <-> forall i, match_at r (drop i s) = None.
Proof.
  intros Hr. induction s as [|c s IH].
  - split; [|intros _; apply findall_nil, Hr].
    intros _ i. rewrite drop_nil. exact Hr.
  - destruct (match_at r (c :: s)) as [n|] eqn:Hm.
    + pose proof (match_at_pos _ _ _ Hr Hm) as Hn.
      rewrite (findall_hit _ _ _ Hn Hm). split; [discriminate|].
      intros H. specialize (H 0). simpl in H. congruence.
    + rewrite (findall_miss _ _ _ Hm), IH. split.
      * intros H [|i]; [exact Hm | apply H].
      * intros H i. apply (H (S i)).
Qed.

(** Without a match, [sub] returns its argument. *)
Lemma sub_unchanged r repl (s : text) :
  match_at r [] = None -> findall r s = [] -> sub r repl s = s.
Proof.
  intros Hr. induction s as [|c s IH]; intros H.
  - apply sub_nil, Hr.
  - destruct (match_at r (c :: s)) as [n|] eqn:Hm.
    + pose proof (match_at_pos _ _ _ Hr Hm) as Hn.
      rewrite (findall_hit _ _ _ Hn Hm) in H. discriminate.
    + rewrite (findall_miss _ _ _ Hm) in H.
      rewrite (sub_miss _ _ _ _ Hm), IH by exact H. reflexivity.
Qed.

End ReFacts.

(** ** Substituting a literal *)

Lemma existsb_false {A} (f : A -> bool) (l : list A) (x : A) :
  existsb f l = false -> In x l -> f x = false.
Proof.
  intros H Hx. destruct (f x) eqn:Hf; [|reflexivity].
  rewrite <- H. symmetry. apply existsb_exists. eauto.
Qed.

Lemma suffixes_drop (l : text) i : i < length l -> In (drop i l) (suffixes l).
Proof.
  revert i. induction l as [|a l IH]; intros i Hi; simpl in Hi; [lia|].
  destruct i as [|i]; simpl; [left; reflexivity|].
  right. apply IH. lia.
Qed.

Lemma suffixes_self (a : N) (l : text) : In (a :: l) (suffixes (a :: l)).
Proof. left. reflexivity. Qed.

Section Literal.

Import Re ReFacts.

Variables p r : text.
Hypothesis p_nonempty : p <> [].

Lemma literal_never_empty : match_at (Literal p) [] = None.
Proof. simpl. destruct p; [contradiction|reflexivity]. Qed.

Lemma literal_match_at (s : text) :
  match_at (Literal p) s = if starts_with p s then Some (length p) else None.
Proof. reflexivity. Qed.

Lemma length_p_pos : 0 < length p.
Proof. destruct p; [contradiction|simpl; lia]. Qed.

Lemma sub_literal_hit (t : text) :
  sub (Literal p) r (p ++ t) = r ++ sub (Literal p) r t.
Proof.
  rewrite (sub_hit (Literal p) r (p ++ t) (length p) length_p_pos).
  - rewrite drop_app_length. reflexivity.
  - simpl. rewrite starts_with_app. reflexivity.
Qed.

Lemma sub_literal_miss c (s : text) :
  starts_with p (c :: s) = false ->
  sub (Literal p) r (c :: s) = c :: sub (Literal p) r s.
Proof. intros H. apply sub_miss. simpl in *. rewrite H. reflexivity. Qed.

Lemma findall_literal_hit (t : text) :
  findall (Literal p) (p ++ t) = p :: findall (Literal p) t.
Proof.
  rewrite (findall_hit (Literal p) (p ++ t) (length p) length_p_pos).
  - rewrite drop_app_length, take_app_length. reflexivity.
  - simpl. rewrite starts_with_app. reflexivity.
Qed.

Lemma findall_literal_absent (s : text) :
  findall (Literal p) s = [] <-> Spec.absent p s.
Proof.
  rewrite (findall_empty_iff _ _ literal_never_empty). unfold Spec.absent.
  split; intros H i; specialize (H i); simpl in *;
    destruct (starts_with p (drop i s)); congruence.
Qed.

(** A literal that starts the result of a substitution, and that no copy
    of the replacement can start inside of, starts the original text. *)
Lemma prefix_of_sub (q s : text) :
  existsb (fun q' => agree r q') (suffixes q) = false ->
  starts_with q (sub (Literal p) r s) = true ->
  starts_with q s = true.
Proof.
  revert q. induction s as [|c s IH]; intros q Hq.
  - rewrite (sub_nil _ _ literal_never_empty). trivial.
  - destruct q as [|a q]; [reflexivity|].
    destruct (starts_with p (c :: s)) eqn:Hp.
    + rewrite (starts_with_drop _ _ Hp), sub_literal_hit.
      intros H%starts_with_agree.
      rewrite (existsb_false _ _ _ Hq (suffixes_self a q)) in H.
      discriminate.
    + rewrite (sub_literal_miss _ _ Hp). simpl.
      intros [Hac H]%andb_true_iff. rewrite Hac. simpl.
      apply IH; [|exact H].
      simpl in Hq. apply orb_false_iff in Hq as [_ Hq]. exact Hq.
Qed.

(** The occurrences of [q] after the substitution: none, when every
    occurrence of [q] before it was at an occurrence of [p] and [q] does
    not clash with the replacement. *)
Lemma sub_absent (q s : text) :
  clash q r = false ->
  (forall i, starts_with q (drop i s) = true ->
             starts_with p (drop i s) = true) ->
  Spec.absent q (sub (Literal p) r s).
Proof.
  intros Hclash. apply orb_false_iff in Hclash as [Hhead Htail].
  induction s as [s IH] using text_length_ind. intros Hocc i.
  destruct (starts_with q (drop i (sub (Literal p) r s))) eqn:Hq;
    [exfalso|reflexivity].
  destruct s as [|c s].
  - rewrite (sub_nil _ _ literal_never_empty), drop_nil in Hq.
    specialize (Hocc 0 Hq). simpl in Hocc.
    destruct p; [contradiction|discriminate].
  - destruct (starts_with p (c :: s)) eqn:Hp.
    + pose proof (starts_with_drop _ _ Hp) as Hs.
      remember (drop (length p) (c :: s)) as t eqn:Ht.
      rewrite Hs, sub_literal_hit in Hq.
      destruct (decide (i < length r)) as [Hi|Hi].
      * rewrite drop_app_le in Hq by lia.
        apply starts_with_agree in Hq.
        rewrite (existsb_false _ _ _ Hhead (suffixes_drop r i Hi)) in Hq.
        discriminate.
      * rewrite drop_app_ge in Hq by lia.
        assert (Hlen : length t < length (c :: s)).
        { rewrite Hs, length_app. pose proof length_p_pos. lia. }
        assert (Hocc' : forall j, starts_with q (drop j t) = true ->
                                  starts_with p (drop j t) = true).
        { intros j Hj. specialize (Hocc (length p + j)).
          rewrite Hs, drop_app_add in Hocc. auto. }
        rewrite (IH t Hlen Hocc' (i - length r)) in Hq. discriminate.
    + rewrite (sub_literal_miss _ _ Hp) in Hq.
      destruct i as [|i].
      * simpl in Hq. rewrite <- (sub_literal_miss _ _ Hp) in Hq.
        apply (prefix_of_sub _ _ Htail) in Hq.
        specialize (Hocc 0 Hq). simpl in Hocc. congruence.
      * simpl in Hq.
        assert (Hocc' : forall j, starts_with q (drop j s) = true ->
                                  starts_with p (drop j s) = true).
        { intros j Hj. apply (Hocc (S j) Hj). }
        rewrite (IH s (Nat.lt_succ_diag_r _) Hocc' i) in Hq. discriminate.
Qed.

(** After the substitution no occurrence of the pattern is left. *)
Lemma sub_removes_all (s : text) :
  clash p r = false -> Spec.absent p (sub (Literal p) r s).
Proof. intros H. apply sub_absent; auto. Qed.

(** The substitution creates no occurrence of another literal. *)
Lemma sub_keeps_absent (q s : text) :
  clash q r = false -> Spec.absent q s ->
  Spec.absent q (sub (Literal p) r s).
Proof.
  intros H Hq. apply sub_absent; [exact H|].
  intros i Hi. rewrite Hq in Hi. discriminate.
Qed.

End Literal.

(** ** The rule tables *)

Module PatchFacts.

Import Re ReFacts DRAMPatcher.

(** Every pattern of the two tables is a non-empty literal in the sense
    of [is_literal_pattern], and no pattern clashes with any
    replacement. *)
Lemma rules_table :
  forallb (fun rule =>
             is_literal_pattern (str (fst rule))
             && negb (bool_decide (unescape (str (fst rule)) = []))
             && forallb (fun q => negb (clash q (str (snd rule)))) patterns)
          (URL_REPLACEMENTS ++ BUG_FIXES) = true.
Proof. vm_compute. reflexivity. Qed.

Lemma rule_nonempty rule :
  In rule (URL_REPLACEMENTS ++ BUG_FIXES) -> unescape (str (fst rule)) <> [].
Proof.
  intros H. pose proof rules_table as T.
  rewrite forallb_forall in T. specialize (T rule H).
  apply andb_true_iff in T as [T _]. apply andb_true_iff in T as [_ T].
  apply negb_true_iff, bool_decide_eq_false in T. exact T.
Qed.

Lemma rule_no_clash q rule :
  In q patterns -> In rule (URL_REPLACEMENTS ++ BUG_FIXES) ->
  clash q (str (snd rule)) = false.
Proof.
  intros Hq H. pose proof rules_table as T.
  rewrite forallb_forall in T. specialize (T rule H).
  apply andb_true_iff in T as [_ T].
  rewrite forallb_forall in T. specialize (T q Hq).
  apply negb_true_iff in T. exact T.
Qed.

Lemma pattern_of_rule rule :
  In rule (URL_REPLACEMENTS ++ BUG_FIXES) ->
  In (unescape (str (fst rule))) patterns.
Proof.
  intros H. unfold patterns.
  apply (in_map (fun rule => unescape (str (fst rule)))). exact H.
Qed.

(** The text a turn of the loop leaves is the substitution, whether the
    rule fired or not. *)
Lemma apply_rule_text kind state rule :
  unescape (str (fst rule)) <> [] ->
  fst (apply_rule kind state rule)
  = sub (compile (str (fst rule))) (str (snd rule)) (fst state).
Proof.
  intros Hne. destruct state as [content changes], rule as [pattern repl].
  simpl in *. destruct (findall _ content) eqn:Hf; simpl; [|reflexivity].
  symmetry. apply sub_unchanged; [|exact Hf].
  apply literal_never_empty, Hne.
Qed.

(** A rule whose pattern is absent leaves the state as it is. *)
Lemma apply_rule_idle kind state rule :
  unescape (str (fst rule)) <> [] ->
  Spec.absent (unescape (str (fst rule))) (fst state) ->
  apply_rule kind state rule = state.
Proof.
  intros Hne Habs. destruct state as [content changes], rule as [pattern repl].
  simpl in *. apply (findall_literal_absent _ Hne) in Habs.
  unfold compile. rewrite Habs. reflexivity.
Qed.

(** The Change Record only grows. *)
Lemma apply_rule_changes kind state rule :
  snd (apply_rule kind state rule) = [] -> apply_rule kind state rule = state.
Proof.
  destruct state as [content changes], rule as [pattern repl]. simpl.
  destruct (findall _ content); simpl; [reflexivity|].
  intros H. destruct changes; discriminate.
Qed.

Lemma fold_changes kind rules state :
  snd (fold_left (apply_rule kind) rules state) = [] ->
  fold_left (apply_rule kind) rules state = state.
Proof.
  revert state. induction rules as [|rule rules IH]; intros state H; simpl in *.
  - reflexivity.
  - pose proof (IH _ H) as E. rewrite E in H |- *.
    apply apply_rule_changes, H.
Qed.

Lemma apply_rules_no_changes (content : text) :
  snd (apply_rules content) = [] -> apply_rules content = (content, []).
Proof.
  unfold apply_rules. intros H.
  pose proof (fold_changes _ _ _ H) as E. rewrite E in H |- *.
  apply fold_changes, H.
Qed.

Lemma fold_idle kind rules state :
  (forall rule, In rule rules ->
     unescape (str (fst rule)) <> [] /\
     Spec.absent (unescape (str (fst rule))) (fst state)) ->
  fold_left (apply_rule kind) rules state = state.
Proof.
  revert state. induction rules as [|rule rules IH]; intros state H; simpl.
  - reflexivity.
  - destruct (H rule (or_introl eq_refl)) as [Hne Habs].
    rewrite (apply_rule_idle _ _ _ Hne Habs).
    apply IH. intros rule' Hin. apply H. right. exact Hin.
Qed.

(** A text free of every pattern goes through both loops untouched. *)
Lemma apply_rules_idle (content : text) :
  (forall q, In q patterns -> Spec.absent q content) ->
  apply_rules content = (content, []).
Proof.
  intros H. unfold apply_rules.
  assert (Hall : forall rule, In rule (URL_REPLACEMENTS ++ BUG_FIXES) ->
            unescape (str (fst rule)) <> [] /\
            Spec.absent (unescape (str (fst rule))) content).
  { intros rule Hin.
    split; [apply rule_nonempty, Hin|apply H, pattern_of_rule, Hin]. }
  rewrite (fold_idle URL URL_REPLACEMENTS (content, [])).
  - apply fold_idle. intros rule Hin. apply Hall, in_or_app. auto.
  - intros rule Hin. apply Hall, in_or_app. auto.
Qed.

(** One loop: a pattern that clashes with no replacement of the loop is
    absent afterwards, if it was absent before or is a pattern of the
    loop. *)
Lemma fold_absent kind rules state q :
  (forall rule, In rule rules ->
     unescape (str (fst rule)) <> [] /\ clash q (str (snd rule)) = false) ->
  Spec.absent q (fst state) \/
    (exists rule, In rule rules /\ unescape (str (fst rule)) = q) ->
  Spec.absent q (fst (fold_left (apply_rule kind) rules state)).
Proof.
  revert state. induction rules as [|rule rules IH]; intros state Hok Hq.
  - simpl. destruct Hq as [Hq|[rule [[] _]]]. exact Hq.
  - simpl. destruct (Hok rule (or_introl eq_refl)) as [Hne Hclash].
    apply IH; [intros rule' Hin; apply Hok; right; exact Hin|].
    destruct Hq as [Hq|[rule' [[->|Hin] Hq]]].
    + left. rewrite (apply_rule_text _ _ _ Hne).
      apply sub_keeps_absent; assumption.
    + left. rewrite (apply_rule_text _ _ _ Hne). subst q.
      apply sub_removes_all; assumption.
    + right. exists rule'. split; assumption.
Qed.

(** After both loops no pattern of either table occurs in the text. *)
Lemma apply_rules_absent (content : text) q :
  In q patterns -> Spec.absent q (fst (apply_rules content)).
Proof.
  intros Hq. unfold apply_rules.
  assert (Hok : forall rule, In rule (URL_REPLACEMENTS ++ BUG_FIXES) ->
            unescape (str (fst rule)) <> [] /\
            clash q (str (snd rule)) = false).
  { intros rule Hin.
    split; [apply rule_nonempty|apply rule_no_clash]; assumption. }
  unfold patterns in Hq. apply in_map_iff in Hq as [rule [Hrule Hin]].
  apply in_app_or in Hin as [Hin|Hin].
  - apply fold_absent.
    + intros rule' Hin'. apply Hok, in_or_app. right. exact Hin'.
    + left. apply fold_absent.
      * intros rule' Hin'. apply Hok, in_or_app. left. exact Hin'.
      * right. exists rule. split; assumption.
  - apply fold_absent.
    + intros rule' Hin'. apply Hok, in_or_app. right. exact Hin'.
    + right. exists rule. split; assumption.
Qed.

End PatchFacts.

(** ** The methods as equations on the world *)

Module MethodFacts.

Import Re ReFacts DRAMPatcher PatchFacts.

Lemma printed_printed w msgs msgs' :
  printed (printed w msgs) msgs' = printed w (msgs ++ msgs').
Proof. unfold printed. simpl. rewrite app_assoc. reflexivity. Qed.

Ltac run_method :=
  unfold create_backup, restore_backup, analyze_file, apply_patch,
    verify_patch, copy2, bind, ret, raise, print, printed, mkdir,
    path_exists, read_text, write_text, lookup_file; simpl.

Lemma create_backup_ok now content pristine bk out :
  create_backup now (World (Some content) pristine bk out)
  = (Return (BackupFile now),
     World (Some content)
           (Some (match pristine with Some old => old | None => content end))
           (<[now := Some content]> bk)
           (out ++ [BackupCreated now; OriginalSaved])).
Proof.
  run_method.
  destruct (bk !! now) eqn:Hb; simpl; rewrite ?Hb, ?lookup_insert_eq; simpl;
    destruct pristine; simpl; rewrite ?insert_insert_eq, <- ?app_assoc;
    reflexivity.
Qed.

Lemma create_backup_missing now pristine bk out :
  create_backup now (World None pristine bk out)
  = (Raise (FileNotFoundError HandlerFile),
     World None pristine
           (match bk !! now with Some _ => bk | None => <[now := None]> bk end)
           out).
Proof. run_method. destruct (bk !! now); reflexivity. Qed.

Lemma restore_backup_ok target pristine bk out :
  restore_backup (World target (Some pristine) bk out)
  = (Return true,
     World (Some pristine) (Some pristine) bk (out ++ [RestoredFrom])).
Proof. reflexivity. Qed.

Lemma restore_backup_none target bk out :
  restore_backup (World target None bk out)
  = (Return false, World target None bk (out ++ [NoBackupFound])).
Proof. reflexivity. Qed.

Lemma analyze_file_ok content pristine bk out :
  analyze_file (World (Some content) pristine bk out)
  = (Return (findall ftp_pattern content),
     World (Some content) pristine bk
           (out ++ [match findall ftp_pattern content with
                    | [] => NoFtpUrlsFound
                    | urls => FoundFtpUrls (length urls) (remove_dups urls)
                    end])).
Proof. run_method. destruct (findall ftp_pattern content); reflexivity. Qed.

Lemma verify_patch_ok content pristine bk out :
  verify_patch (World (Some content) pristine bk out)
  = (Return (Nat.eqb (length (findall ftp_pattern content)) 0),
     World (Some content) pristine bk
           (out ++ [VerificationResults
                      (length (findall ftp_pattern content))
                      (remove_dups (findall ftp_pattern content))
                      (length (findall https_pattern content));
                    if Nat.eqb (length (findall ftp_pattern content)) 0
                    then VerificationPassed else VerificationWarning])).
Proof.
  run_method.
  destruct (Nat.eqb (length (findall ftp_pattern content)) 0); simpl;
    rewrite <- app_assoc; reflexivity.
Qed.

Lemma apply_patch_ok dry_run content pristine bk out :
  apply_patch dry_run (World (Some content) pristine bk out)
  = match snd (apply_rules content) with
    | [] =>
        (Return false,
         World (Some content) pristine bk (out ++ [NoChangesNeeded]))
    | changes =>
        if dry_run then
          (Return true,
           World (Some content) pristine bk
                 (out ++ [ChangesToBeApplied changes; DryRunNoChangesWritten]))
        else
          (Return true,
           World (Some (fst (apply_rules content))) pristine bk
                 (out ++ [ChangesToBeApplied changes; PatchApplied]))
    end.
Proof.
  run_method. destruct (apply_rules content) as [modified changes]. simpl.
  destruct changes; simpl; [reflexivity|].
  destruct dry_run; simpl; rewrite <- app_assoc; reflexivity.
Qed.

(** Reading a target that does not exist raises, and nothing changes. *)
Lemma missing_target pristine bk out :
  let w := World None pristine bk out in
  analyze_file w = (Raise (FileNotFoundError HandlerFile), w)
  /\ verify_patch w = (Raise (FileNotFoundError HandlerFile), w)
  /\ forall dry_run,
       apply_patch dry_run w = (Raise (FileNotFoundError HandlerFile), w).
Proof. repeat split. Qed.

(** The target after [apply_patch] that writes is the text after the
    rules, and so it is when nothing had to be written. *)
Lemma apply_patch_target content pristine bk out :
  handler_file (snd (apply_patch false (World (Some content) pristine bk out)))
  = Some (fst (apply_rules content)).
Proof.
  rewrite apply_patch_ok.
  destruct (snd (apply_rules content)) eqn:H; simpl; [|reflexivity].
  rewrite (apply_rules_no_changes _ H). reflexivity.
Qed.

End MethodFacts.

(** * The claims *)

Module Claims.

Import Re ReFacts DRAMPatcher PatchFacts MethodFacts.

(** ** Detection and the URL rules *)

(** Every URL pattern, read as a text, starts with a match of the
    detection pattern. *)
Lemma url_patterns_detected :
  forallb (fun rule =>
             match match_at ftp_pattern (unescape (str (fst rule))) with
             | Some _ => true
             | None => false
             end) URL_REPLACEMENTS = true.
Proof. vm_compute. reflexivity. Qed.

Lemma undetected_means_no_url_rule (content : text) rule :
  findall ftp_pattern content = [] ->
  In rule URL_REPLACEMENTS ->
  Spec.absent (unescape (str (fst rule))) content.
Proof.
  intros Hnone Hin i.
  destruct (starts_with _ (drop i content)) eqn:Hp; [exfalso|reflexivity].
  pose proof url_patterns_detected as T.
  rewrite forallb_forall in T. specialize (T rule Hin).
  destruct (match_at ftp_pattern (unescape (str (fst rule)))) as [n|] eqn:Hm;
    [|discriminate].
  apply starts_with_spec in Hp as [t Ht].
  apply (match_at_extend _ _ t) in Hm. apply Hm. rewrite <- Ht.
  apply (findall_empty_iff ftp_pattern content); [reflexivity|exact Hnone].
Qed.

(** C1, as the specification states it, fails: a target holding the VOG
    path expression and no FTP URL has an empty analysis, and yet
    [apply_patch] fires the bug-fix rule and rewrites the file. *)
Lemma no_op_safety_counterexample :
  let w := World (Some (str "path.join(hmm_dir, 'VOG*.hmm')")) None ∅ [] in
  fst (analyze_file w) = Return []
  /\ fst (apply_patch false w) = Return true
  /\ handler_file (snd (apply_patch false w))
     = Some (str "path.join(hmm_dir, 'hmm', 'VOG*.hmm')")
  /\ handler_file (snd (apply_patch false w)) <> handler_file w.
Proof. vm_compute. repeat split; discriminate. Qed.

(** C1 (amended): when [analyze_file] returns no match, no URL rule of
    [apply_patch] fires. When moreover no bug-fix pattern occurs in the
    target, [apply_patch] writes nothing and reports that no change was
    needed. When a bug-fix pattern does occur, [apply_patch] returns
    true and, unless it is a dry run, writes to the target the text the
    bug-fix rules make of it, which is not the text it read. *)
Theorem no_op_without_any_match dry_run (content : text) pristine bk out :
  let w := World (Some content) pristine bk out in
  fst (analyze_file w) = Return [] ->
  Forall (fun rule => findall (compile (str (fst rule))) content = [])
         URL_REPLACEMENTS
  /\ (Forall (fun rule => findall (compile (str (fst rule))) content = [])
             BUG_FIXES ->
      apply_patch dry_run w
      = (Return false,
         World (Some content) pristine bk (out ++ [NoChangesNeeded])))
  /\ (Exists (fun rule => findall (compile (str (fst rule))) content <> [])
             BUG_FIXES ->
      fst (apply_patch dry_run w) = Return true
      /\ handler_file (snd (apply_patch false w))
         = Some (fst (fold_left (apply_rule BUG) BUG_FIXES (content, [])))
      /\ fst (fold_left (apply_rule BUG) BUG_FIXES (content, [])) <> content).
Proof.
  intros w Hana. subst w. rewrite analyze_file_ok in Hana.
  simpl in Hana. injection Hana as Hana.
  assert (Hurl : forall rule, In rule URL_REPLACEMENTS ->
            Spec.absent (unescape (str (fst rule))) content).
  { intros rule Hin. apply undetected_means_no_url_rule; assumption. }
  assert (Hloop : apply_rules content
                  = fold_left (apply_rule BUG) BUG_FIXES (content, [])).
  { unfold apply_rules. rewrite (fold_idle URL URL_REPLACEMENTS); [reflexivity|].
    intros rule Hin. split; [|apply Hurl, Hin].
    apply rule_nonempty, in_or_app. auto. }
  split; [|split].
  - apply List.Forall_forall. intros rule Hin.
    apply findall_literal_absent; [|apply Hurl, Hin].
    apply rule_nonempty, in_or_app. auto.
  - intros Hbug. rewrite apply_patch_ok, apply_rules_idle; [reflexivity|].
    intros q Hq. unfold patterns in Hq.
    apply in_map_iff in Hq as [rule [<- Hin]].
    apply in_app_or in Hin as [Hin|Hin]; [apply Hurl, Hin|].
    rewrite List.Forall_forall in Hbug.
    apply findall_literal_absent; [|apply Hbug, Hin].
    apply rule_nonempty, in_or_app. auto.
  - intros Hbug. apply List.Exists_exists in Hbug as [rule [Hin Hfound]].
    assert (Hrule : In rule (URL_REPLACEMENTS ++ BUG_FIXES))
      by (apply in_or_app; auto).
    assert (Hdiff : fst (apply_rules content) <> content).
    { intros E. apply Hfound.
      apply findall_literal_absent; [apply rule_nonempty, Hrule|].
      rewrite <- E. apply apply_rules_absent, pattern_of_rule, Hrule. }
    split; [|split].
    + rewrite apply_patch_ok.
      destruct (snd (apply_rules content)) eqn:Hc.
      * exfalso. apply Hdiff.
        rewrite (apply_rules_no_changes _ Hc). reflexivity.
      * destruct dry_run; reflexivity.
    + rewrite apply_patch_target, Hloop. reflexivity.
    + rewrite <- Hloop. exact Hdiff.
Qed.

Lemma no_op_without_any_match_witness :
  let content := str "hmms = path.join(hmm_dir, 'VOG*.hmm')" in
  let w := World (Some content) None ∅ [] in
  Forall (fun rule => findall (compile (str (fst rule))) content = [])
         URL_REPLACEMENTS
  /\ (Forall (fun rule => findall (compile (str (fst rule))) content = [])
             BUG_FIXES ->
      apply_patch false w
      = (Return false,
         World (Some content) None ∅ ([] ++ [NoChangesNeeded])))
  /\ (Exists (fun rule => findall (compile (str (fst rule))) content <> [])
             BUG_FIXES ->
      fst (apply_patch false w) = Return true
      /\ handler_file (snd (apply_patch false w))
         = Some (fst (fold_left (apply_rule BUG) BUG_FIXES (content, [])))
      /\ fst (fold_left (apply_rule BUG) BUG_FIXES (content, [])) <> content).
Proof.
  apply (no_op_without_any_match false
           (str "hmms = path.join(hmm_dir, 'VOG*.hmm')") None ∅ []).
  vm_compute. reflexivity.
Defined.

(** ** Idempotence *)

(** C2: for every initial content, after one run of [apply_patch] the
    target holds the text the rules produce; on that text every rule of
    both tables finds no match, the rules change nothing and record no
    change, and a second run of [apply_patch] returns the no-changes
    outcome and leaves the target as the first run left it. *)
Theorem apply_patch_twice_idempotent (content : text) pristine bk out :
  let w1 := snd (apply_patch false (World (Some content) pristine bk out)) in
  let patched := fst (apply_rules content) in
  handler_file w1 = Some patched
  /\ Forall (fun rule => findall (compile (str (fst rule))) patched = [])
            (URL_REPLACEMENTS ++ BUG_FIXES)
  /\ apply_rules patched = (patched, [])
  /\ apply_patch false w1
     = (Return false,
        World (Some patched) (original_backup w1) (backups w1)
              (stdout w1 ++ [NoChangesNeeded])).
Proof.
  intros w1 patched.
  assert (Htarget : handler_file w1 = Some patched)
    by apply apply_patch_target.
  assert (Hidle : apply_rules patched = (patched, [])).
  { apply apply_rules_idle. intros q Hq. apply apply_rules_absent, Hq. }
  repeat split; [exact Htarget| |exact Hidle|].
  - apply List.Forall_forall. intros rule Hin.
    apply findall_literal_absent; [apply rule_nonempty, Hin|].
    apply apply_rules_absent, pattern_of_rule, Hin.
  - destruct w1 as [target pristine1 bk1 out1]. simpl in Htarget.
    subst target. rewrite apply_patch_ok, Hidle. reflexivity.
Qed.

(** ** Rule order *)

Lemma apply_in_order_app rules rules' (current : text) record :
  Spec.apply_in_order (rules ++ rules') current record
  = Spec.apply_in_order rules'
      (fst (Spec.apply_in_order rules current record))
      (snd (Spec.apply_in_order rules current record)).
Proof.
  revert current record.
  induction rules as [|[kind [pattern replacement]] rules IH];
    intros current record; simpl; [reflexivity|].
  destruct (Nat.ltb 0 (Spec.count_matches pattern current)); apply IH.
Qed.

Lemma loop_in_order kind rules state :
  fold_left (apply_rule kind) rules state
  = Spec.apply_in_order (map (pair kind) rules) (fst state) (snd state).
Proof.
  revert state. induction rules as [|[pattern replacement] rules IH];
    intros [current record]; simpl; [reflexivity|].
  rewrite IH. unfold Spec.count_matches.
  destruct (findall (compile (str pattern)) current); reflexivity.
Qed.

(** C3: the two loops of [apply_patch] are one pass over the Rule Set,
    URL rules first and bug-fix rules after them, in which every rule is
    counted against the text the rules before it have left, and a rule
    with a positive count substitutes all its matches (none is left
    afterwards) and appends its category, pattern, replacement and count
    to the Change Record. *)
Theorem apply_rules_in_rule_set_order (content : text) :
  apply_rules content = Spec.apply_in_order Spec.rule_set content []
  /\ Forall (fun rule =>
               forall current : text,
                 Spec.count_matches (fst (snd rule))
                   (sub (compile (str (fst (snd rule))))
                        (str (snd (snd rule))) current) = 0)
            Spec.rule_set.
Proof.
  split.
  - unfold apply_rules, Spec.rule_set.
    rewrite apply_in_order_app, (loop_in_order BUG), (loop_in_order URL).
    reflexivity.
  - apply List.Forall_forall. intros [kind rule] Hin current. simpl.
    assert (Hrule : In rule (URL_REPLACEMENTS ++ BUG_FIXES)).
    { unfold Spec.rule_set in Hin.
      apply in_app_or in Hin as [Hin|Hin];
        apply in_map_iff in Hin as [rule' [[= _ <-] Hin]];
        apply in_or_app; auto. }
    unfold Spec.count_matches.
    assert (findall (compile (str (fst rule)))
              (sub (compile (str (fst rule))) (str (snd rule)) current) = [])
      as ->; [|reflexivity].
    apply findall_literal_absent; [apply rule_nonempty, Hrule|].
    apply sub_removes_all; [apply rule_nonempty, Hrule|].
    apply rule_no_clash; [apply pattern_of_rule|]; exact Hrule.
Qed.

(** ** Backup and restore *)

(** C4, as the specification states it, fails when a pristine snapshot is
    already there: [create_backup] keeps it, and [restore_backup] puts
    its content, not the content of the moment of the backup, into the
    target. *)
Lemma round_trip_counterexample :
  let w :=
    World (Some (str "patched once")) (Some (str "as installed")) ∅ [] in
  let w' := snd (restore_backup (snd (create_backup "20250101_120000" w))) in
  handler_file w' = Some (str "as installed")
  /\ handler_file w' <> handler_file w.
Proof. vm_compute. split; [reflexivity|discriminate]. Qed.

(** C4 (amended): [create_backup] followed by [restore_backup], at once
    or with a call of [apply_patch] in between, succeeds and leaves in
    the target the content of the pristine snapshot: the content the
    target had when [create_backup] was called if no pristine snapshot
    existed then, the content of that earlier snapshot otherwise. *)
Theorem backup_restore_round_trip now dry_run (content : text) pristine bk out :
  let w := World (Some content) pristine bk out in
  let saved := match pristine with Some old => old | None => content end in
  let w1 := snd (create_backup now w) in
  let w2 := snd (apply_patch dry_run w1) in
  fst (restore_backup w1) = Return true
  /\ handler_file (snd (restore_backup w1)) = Some saved
  /\ fst (restore_backup w2) = Return true
  /\ handler_file (snd (restore_backup w2)) = Some saved.
Proof.
  intros w saved w1 w2. subst w w1 w2.
  rewrite create_backup_ok. simpl. rewrite apply_patch_ok.
  repeat split; destruct (snd (apply_rules content)); try reflexivity;
    destruct dry_run; reflexivity.
Qed.

Lemma perform_keeps_snapshot w op (pristine : text) :
  original_backup w = Some pristine ->
  original_backup (perform w op) = Some pristine.
Proof.
  destruct w as [target o bk out]. simpl. intros ->.
  destruct op as [now| |dry_run| |]; destruct target as [content|];
    unfold perform; try reflexivity.
  - rewrite create_backup_ok. reflexivity.
  - rewrite create_backup_missing. reflexivity.
  - rewrite apply_patch_ok.
    destruct (snd (apply_rules content)); [reflexivity|].
    destruct dry_run; reflexivity.
  - rewrite analyze_file_ok. reflexivity.
  - rewrite verify_patch_ok. reflexivity.
Qed.

(** C5: once the pristine snapshot exists, it keeps its content through
    every sequence of [create_backup], [restore_backup], [apply_patch],
    [analyze_file] and [verify_patch], whether they return or raise: it
    is written by the first [create_backup] that finds none, and by
    nothing after that. *)
Theorem pristine_snapshot_first_wins ops w (pristine : text) :
  original_backup w = Some pristine ->
  original_backup (perform_all ops w) = Some pristine.
Proof.
  unfold perform_all. revert w.
  induction ops as [|op ops IH]; intros w H; simpl; [exact H|].
  apply IH, perform_keeps_snapshot, H.
Qed.

Lemma pristine_snapshot_first_wins_witness :
  original_backup
    (perform_all
       [CreateBackup "20250101_120000"; ApplyPatch false; VerifyPatch;
        CreateBackup "20250102_120000"; AnalyzeFile; RestoreBackup;
        ApplyPatch true]
       (World (Some (str "see ftp://ftp.genome.jp/pub")) (Some (str "first"))
              ∅ []))
  = Some (str "first").
Proof.
  apply (pristine_snapshot_first_wins _ _ (str "first")). reflexivity.
Defined.

(** ** Reading without writing *)

(** C6: with [dry_run] set, [apply_patch] prints the Change Record, or
    that no change is needed, and writes nothing: the target, the
    pristine snapshot and the timestamped snapshots are what they
    were. *)
Theorem dry_run_writes_nothing (content : text) pristine bk out :
  apply_patch true (World (Some content) pristine bk out)
  = (Return (match snd (apply_rules content) with
             | [] => false
             | _ :: _ => true
             end),
     World (Some content) pristine bk
           (out ++ match snd (apply_rules content) with
                   | [] => [NoChangesNeeded]
                   | changes =>
                       [ChangesToBeApplied changes; DryRunNoChangesWritten]
                   end)).
Proof.
  rewrite apply_patch_ok. destruct (snd (apply_rules content)); reflexivity.
Qed.

(** ** What the detection pattern finds *)

Lemma run_length_take excluded (s : text) :
  Forall (fun c => excluded c = false) (take (run_length excluded s) s).
Proof.
  induction s as [|c s IH]; simpl; [constructor|].
  destruct (excluded c) eqn:Hc; simpl; [constructor|].
  constructor; assumption.
Qed.

Lemma run_length_drop excluded (s : text) :
  match drop (run_length excluded s) s with
  | [] => True
  | c :: _ => excluded c = true
  end.
Proof.
  induction s as [|c s IH]; simpl; [exact I|].
  destruct (excluded c) eqn:Hc; simpl; assumption.
Qed.

Lemma run_length_all excluded (s : text) :
  Forall (fun c => excluded c = false) s -> run_length excluded s = length s.
Proof.
  induction 1 as [|c s Hc _ IH]; simpl; [reflexivity|].
  rewrite Hc, IH. reflexivity.
Qed.

Lemma negated_set_match l excluded (s : text) n :
  match_at (LiteralNegSetPlus l excluded) s = Some n ->
  (exists tail, take n s = l ++ tail /\ tail <> [] /\
     Forall (fun c => excluded c = false) tail)
  /\ match drop n s with
     | [] => True
     | c :: _ => excluded c = true
     end.
Proof.
  unfold match_at.
  destruct (starts_with l s) eqn:Hp; [|discriminate].
  apply starts_with_drop in Hp. revert Hp.
  generalize (drop (length l) s) as rest. intros rest ->.
  destruct (run_length excluded rest) as [|k] eqn:Hk; [discriminate|].
  intros [= <-]. rewrite take_app_add, drop_app_add, <- Hk. split.
  - exists (take (run_length excluded rest) rest).
    split; [reflexivity|]. split; [|apply run_length_take].
    rewrite Hk. destruct rest; discriminate.
  - apply run_length_drop.
Qed.

Lemma detected_reference (s : text) n :
  match_at ftp_pattern s = Some n ->
  Spec.legacy_reference (take n s) /\ Spec.ends_reference (drop n s).
Proof. apply negated_set_match. Qed.

Lemma reference_detected (u : text) :
  Spec.legacy_reference u -> exists n, match_at ftp_pattern u = Some n.
Proof.
  intros [tail [-> [Hne Hall]]]. unfold ftp_pattern, match_at.
  rewrite starts_with_app, drop_app_length, (run_length_all _ _ Hall).
  destruct tail; [contradiction|]. simpl length. eauto.
Qed.

Lemma findall_references (content : text) :
  Spec.references content (findall ftp_pattern content).
Proof.
  induction content as [content IH] using text_length_ind.
  destruct content as [|c s].
  - rewrite findall_nil by reflexivity. constructor.
  - destruct (match_at ftp_pattern (c :: s)) as [n|] eqn:Hm.
    + assert (Hn : 0 < n)
        by (apply (match_at_pos ftp_pattern (c :: s)); [reflexivity|exact Hm]).
      rewrite (findall_hit _ _ _ Hn Hm).
      destruct (detected_reference _ _ Hm) as [Hu He].
      rewrite <- (take_drop n (c :: s)) at 1.
      apply Spec.references_take; [exact Hu|exact He|].
      apply IH. rewrite length_drop. simpl. lia.
    + rewrite (findall_miss _ _ _ Hm). apply Spec.references_skip.
      * intros u t Hu E. destruct (reference_detected u Hu) as [n Hn].
        apply (match_at_extend _ _ t) in Hn. rewrite <- E in Hn.
        contradiction.
      * apply IH. simpl. lia.
Qed.

Lemma reference_split (t t' s s' : text) :
  Forall (fun c => not_url_char c = false) t ->
  Forall (fun c => not_url_char c = false) t' ->
  Spec.ends_reference s -> Spec.ends_reference s' ->
  t ++ s = t' ++ s' -> t = t' /\ s = s'.
Proof.
  intros Ht. revert t'. induction Ht as [|c t Hc Ht IH]; intros t' Ht' Hs Hs' E.
  - destruct Ht' as [|c' t' Hc' Ht']; [auto|].
    simpl in E. subst s. simpl in Hs. congruence.
  - destruct Ht' as [|c' t' Hc' Ht'].
    + simpl in E. subst s'. simpl in Hs'. congruence.
    + simpl in E. injection E as -> E.
      destruct (IH t' Ht' Hs Hs' E) as [-> ->]. auto.
Qed.

Lemma references_unique (s : text) urls urls' :
  Spec.references s urls -> Spec.references s urls' -> urls = urls'.
Proof.
  intros H. revert urls'.
  induction H as [|c s urls Hfree _ IH|u s urls Hu He _ IH]; intros urls' H'.
  - inversion H' as [| |u' s' urls'' Hu' _ _ E]; [reflexivity|].
    destruct Hu' as [tail [-> _]]. discriminate E.
  - inversion H' as [|c' s' urls'' _ H'' |u' s' urls'' Hu' _ _ E]; subst.
    + apply IH, H''.
    + exfalso. apply (Hfree u' s' Hu'). congruence.
  - remember (u ++ s) as whole eqn:E.
    destruct H' as [|c' s' urls'' Hfree' _|u' s' urls'' Hu' He' H''].
    + destruct Hu as [tail [-> _]]. discriminate.
    + exfalso. apply (Hfree' u s Hu E).
    + destruct Hu as [tail [-> [_ Hall]]], Hu' as [tail' [-> [_ Hall']]].
      rewrite <- !app_assoc in E. apply app_inv_head in E.
      destruct (reference_split _ _ _ _ Hall' Hall He' He E) as [-> ->].
      f_equal. apply IH, H''.
Qed.

(** C7: [analyze_file] changes no file (it prints one line) and returns
    the matches of the detection pattern in the target: the legacy
    references met from left to right, each as long as possible. Their
    number is the count it reports and the list without repetitions is
    the set of distinct URLs it reports. *)
Theorem analyze_file_reads_and_reports (content : text) pristine bk out :
  let urls := findall ftp_pattern content in
  analyze_file (World (Some content) pristine bk out)
  = (Return urls,
     World (Some content) pristine bk
           (out ++ [match urls with
                    | [] => NoFtpUrlsFound
                    | _ :: _ => FoundFtpUrls (length urls) (remove_dups urls)
                    end]))
  /\ (forall urls', Spec.references content urls' <-> urls' = urls)
  /\ NoDup (remove_dups urls)
  /\ (forall u, u ∈ remove_dups urls <-> u ∈ urls).
Proof.
  intros urls. subst urls. repeat split.
  - rewrite analyze_file_ok.
    destruct (findall ftp_pattern content); reflexivity.
  - intros H. apply (references_unique content); [exact H|].
    apply findall_references.
  - intros ->. apply findall_references.
  - apply NoDup_remove_dups.
  - apply elem_of_remove_dups.
  - apply elem_of_remove_dups.
Qed.

Lemma undetected_iff_no_reference (content : text) :
  (forall i, match_at ftp_pattern (drop i content) = None)
  <-> (forall before u after,
         Spec.legacy_reference u -> content <> before ++ u ++ after).
Proof.
  split.
  - intros H before u after Hu E.
    destruct (reference_detected u Hu) as [n Hn].
    apply (match_at_extend _ _ after) in Hn. apply Hn.
    specialize (H (length before)).
    rewrite E, drop_app_length in H. exact H.
  - intros H i.
    destruct (match_at ftp_pattern (drop i content)) as [n|] eqn:Hm;
      [exfalso|reflexivity].
    destruct (detected_reference _ _ Hm) as [Hu _].
    apply (H (take i content) _ (drop n (drop i content)) Hu).
    rewrite take_drop, take_drop. reflexivity.
Qed.

(** C8: [verify_patch] on an existing target returns, it does not raise;
    it returns true exactly when the detection pattern finds nothing,
    that is when no piece of the target is a legacy reference, and
    otherwise it prints the warning and returns false. *)
Theorem verify_patch_clean_iff (content : text) pristine bk out :
  let remaining := findall ftp_pattern content in
  let clean := Nat.eqb (length remaining) 0 in
  verify_patch (World (Some content) pristine bk out)
  = (Return clean,
     World (Some content) pristine bk
           (out ++ [VerificationResults (length remaining)
                      (remove_dups remaining)
                      (length (findall https_pattern content));
                    if clean then VerificationPassed
                    else VerificationWarning]))
  /\ (clean = true <-> remaining = [])
  /\ (clean = true <->
      forall before u after,
        Spec.legacy_reference u -> content <> before ++ u ++ after).
Proof.
  intros remaining clean. subst remaining clean.
  assert (Hlen : Nat.eqb (length (findall ftp_pattern content)) 0 = true
                 <-> findall ftp_pattern content = []).
  { rewrite Nat.eqb_eq. split; [apply nil_length_inv|intros ->; reflexivity]. }
  split; [apply verify_patch_ok|]. split; [exact Hlen|].
  rewrite Hlen, <- undetected_iff_no_reference.
  apply findall_empty_iff. reflexivity.
Qed.

(** C9: without a pristine snapshot [restore_backup] returns false, it
    does not raise, and the target and the snapshots stay as they are:
    only the line that no backup was found is printed. *)
Theorem restore_without_snapshot w :
  original_backup w = None ->
  restore_backup w = (Return false, printed w [NoBackupFound])
  /\ handler_file (snd (restore_backup w)) = handler_file w.
Proof.
  destruct w as [target pristine bk out]. simpl. intros ->.
  rewrite restore_backup_none. split; reflexivity.
Qed.

Lemma restore_without_snapshot_witness :
  restore_backup (World (Some (str "import os")) None ∅ [])
  = (Return false,
     printed (World (Some (str "import os")) None ∅ []) [NoBackupFound])
  /\ handler_file
       (snd (restore_backup (World (Some (str "import os")) None ∅ [])))
     = handler_file (World (Some (str "import os")) None ∅ []).
Proof.
  apply (restore_without_snapshot (World (Some (str "import os")) None ∅ [])).
  reflexivity.
Defined.

End Claims.

(** ** Paired reads *)

Module ConcatenateFacts.

Import ConcatenateReads.

(** C10: the script writes one record for each pair of the two inputs
    taken in step, as many as the shorter input has records, and the
    record written for position [i] is the header line with the id of
    the forward record at [i], then one line with its sequence, ten
    times the letter N and the sequence of the reverse record at [i]. *)
Theorem concatenation_pairs_in_step (forward reverse : list seq_record) :
  length (writes forward reverse)
  = Nat.min (length forward) (length reverse)
  /\ forall i,
       writes forward reverse !! i
       = match forward !! i, reverse !! i with
         | Some fwd_record, Some rev_record =>
             Some (str ">" ++ id fwd_record ++ [10%N]
                   ++ seq fwd_record ++ replicate 10 78%N ++ seq rev_record
                   ++ [10%N])
         | _, _ => None
         end.
Proof.
  split.
  - revert reverse. induction forward as [|f forward IH];
      intros [|r reverse]; simpl; try reflexivity.
    rewrite IH. reflexivity.
  - revert reverse. induction forward as [|f forward IH];
      intros [|r reverse] i; simpl; try reflexivity.
    + rewrite !lookup_nil. destruct ((f :: forward) !! i); reflexivity.
    + destruct i as [|i]; simpl; [|apply IH].
      unfold write_record, newline. rewrite <- !app_assoc. reflexivity.
Qed.

End ConcatenateFacts.

(** * Further properties of the code *)

(** ** Where the text after a substitution comes from *)

Section LiteralOrigin.

Import Re ReFacts.

Variables p r : text.
Hypothesis p_nonempty : p <> [].

(** A literal found in the result at offset [j], that cannot start
    inside a copy of the replacement, stands where the scan had reached
    some offset [i] of the original text without a match there. *)
Lemma sub_origin (q s : text) j :
  existsb (fun r' => agree r' q) (suffixes r) = false ->
  starts_with q (drop j (sub (Literal p) r s)) = true ->
  exists i,
    drop j (sub (Literal p) r s) = sub (Literal p) r (drop i s)
    /\ starts_with p (drop i s) = false.
Proof.
  intros Hhead. revert j.
  induction s as [s IH] using text_length_ind. intros j Hq.
  destruct s as [|c s].
  - exists 0.
    rewrite drop_0, (sub_nil _ _ (literal_never_empty p p_nonempty)), drop_nil.
    split; [reflexivity|].
    simpl. destruct p; [contradiction|reflexivity].
  - destruct (starts_with p (c :: s)) eqn:Hp.
    + pose proof (starts_with_drop _ _ Hp) as Hs.
      remember (drop (length p) (c :: s)) as t eqn:Ht.
      rewrite Hs in Hq |- *. rewrite (sub_literal_hit p r p_nonempty) in Hq |- *.
      destruct (decide (j < length r)) as [Hj|Hj].
      * rewrite drop_app_le in Hq by lia.
        apply starts_with_agree in Hq.
        rewrite (existsb_false _ _ _ Hhead (suffixes_drop r j Hj)) in Hq.
        discriminate.
      * rewrite drop_app_ge in Hq |- * by lia.
        assert (Hlen : length t < length (c :: s)).
        { rewrite Hs, length_app. pose proof (length_p_pos p p_nonempty). lia. }
        destruct (IH t Hlen (j - length r) Hq) as [i [E Hi]].
        exists (length p + i). rewrite drop_app_add. split; assumption.
    + rewrite (sub_literal_miss p r _ _ Hp) in Hq |- *.
      destruct j as [|j].
      * exists 0. simpl. rewrite (sub_literal_miss p r _ _ Hp).
        split; [reflexivity|exact Hp].
      * simpl in Hq |- *.
        destruct (IH s (Nat.lt_succ_diag_r _) j Hq) as [i [E Hi]].
        exists (S i). split; assumption.
Qed.

(** A piece of text in which no occurrence of the pattern starts goes
    through the substitution as it is. *)
Lemma sub_keeps_prefix (t rest : text) :
  existsb (fun t' => agree t' p) (suffixes t) = false ->
  sub (Literal p) r (t ++ rest) = t ++ sub (Literal p) r rest.
Proof.
  induction t as [|a t IH]; intros H; [reflexivity|].
  simpl in H. apply orb_false_iff in H as [Ha H].
  simpl. rewrite (sub_literal_miss p r), IH; [reflexivity|exact H|].
  destruct (starts_with p (a :: t ++ rest)) eqn:Hp; [|reflexivity].
  apply (starts_with_agree p (a :: t) rest) in Hp. congruence.
Qed.

Lemma sub_keeps_prefix_from a (t rest : text) :
  starts_with p (a :: t ++ rest) = false ->
  existsb (fun t' => agree t' p) (suffixes t) = false ->
  sub (Literal p) r (a :: t ++ rest) = a :: t ++ sub (Literal p) r rest.
Proof.
  intros Hp H. rewrite (sub_literal_miss p r _ _ Hp).
  rewrite sub_keeps_prefix by exact H. reflexivity.
Qed.

(** The first character of the result of a substitution on a text where
    the pattern does match: the first character of the replacement. *)
Lemma sub_head (s : text) :
  sub (Literal p) r s
  = if starts_with p s then r ++ sub (Literal p) r (drop (length p) s)
    else match s with
         | [] => []
         | c :: s' => c :: sub (Literal p) r s'
         end.
Proof.
  destruct (starts_with p s) eqn:Hp.
  - rewrite (starts_with_drop _ _ Hp) at 1.
    apply (sub_literal_hit p r p_nonempty).
  - destruct s as [|c s].
    + apply sub_nil, literal_never_empty, p_nonempty.
    + apply (sub_literal_miss p r), Hp.
Qed.

End LiteralOrigin.

(** ** What the patch leaves of the FTP URLs *)

Module PatchMore.

Import Re ReFacts DRAMPatcher PatchFacts MethodFacts.

Lemma starts_with_trans (a b c : text) :
  starts_with a b = true -> starts_with b c = true -> starts_with a c = true.
Proof.
  intros [t ->]%starts_with_spec [u ->]%starts_with_spec.
  rewrite <- app_assoc. apply starts_with_app.
Qed.

(** Every match that [findall] returns is a piece of the text. *)
Lemma findall_occurs r (s : text) :
  match_at r [] = None ->
  Forall (fun u => exists i, starts_with u (drop i s) = true) (findall r s).
Proof.
  intros Hr. induction s as [s IH] using text_length_ind.
  destruct s as [|c s].
  - rewrite (findall_nil _ Hr). constructor.
  - destruct (match_at r (c :: s)) as [n|] eqn:Hm.
    + pose proof (match_at_pos _ _ _ Hr Hm) as Hn.
      rewrite (findall_hit _ _ _ Hn Hm). constructor.
      * exists 0. rewrite drop_0. apply starts_with_spec.
        exists (drop n (c :: s)). symmetry. apply take_drop.
      * assert (Hlen : length (drop n (c :: s)) < length (c :: s))
          by (rewrite length_drop; simpl; lia).
        eapply List.Forall_impl; [|apply (IH _ Hlen)].
        intros u [i Hi]. exists (n + i). rewrite <- drop_drop. exact Hi.
    + rewrite (findall_miss _ _ _ Hm).
      eapply List.Forall_impl; [|apply (IH s (Nat.lt_succ_diag_r _))].
      intros u [i Hi]. exists (S i). exact Hi.
Qed.

(** The detection pattern on a text that starts with the scheme. *)
Lemma detect_app (y : text) :
  match_at ftp_pattern (str "ftp://" ++ y) <> None
  <-> exists c y', y = c :: y' /\ not_url_char c = false.
Proof.
  unfold ftp_pattern, match_at.
  rewrite starts_with_app, drop_app_length.
  destruct y as [|c y]; simpl run_length.
  - split; [contradiction|intros [c [y' [[=] _]]]].
  - destruct (not_url_char c) eqn:Hc.
    + split; [contradiction|]. intros [c' [y' [[= <- <-] H]]]. congruence.
    + split; [eauto|discriminate].
Qed.

Lemma detect_prefix (x : text) :
  match_at ftp_pattern x <> None -> starts_with (str "ftp://") x = true.
Proof.
  unfold ftp_pattern, match_at.
  destruct (starts_with (str "ftp://") x); [reflexivity|contradiction].
Qed.

(** The scheme clashes with no replacement; no pattern can start inside
    the scheme or inside another pattern, past its first character; and
    every pattern starts with a character a URL can hold. *)
Lemma scheme_table :
  forallb (fun rule => negb (clash (str "ftp://") (str (snd rule))))
          (URL_REPLACEMENTS ++ BUG_FIXES)
  && forallb
       (fun q =>
          negb (existsb (fun t' => agree t' q) (suffixes (tl (str "ftp://"))))
          && match q with
             | c :: _ => negb (not_url_char c)
             | [] => false
             end
          && forallb
               (fun q' =>
                  negb (existsb (fun t' => agree t' q) (suffixes (tl q'))))
               patterns)
       patterns = true.
Proof. vm_compute. reflexivity. Qed.

Section Step.

Variables p r : text.
Hypothesis p_nonempty : p <> [].
Hypothesis scheme_clash : clash (str "ftp://") r = false.
Hypothesis scheme_tail :
  existsb (fun t' => agree t' p) (suffixes (tl (str "ftp://"))) = false.
Hypothesis p_head :
  match p with c :: _ => not_url_char c = false | [] => False end.

(** Where the pattern does not match, a match of the detection pattern
    after the substitution was one before it. *)
Lemma detection_reflected (u : text) :
  starts_with p u = false ->
  match_at ftp_pattern (sub (Literal p) r u) <> None ->
  match_at ftp_pattern u <> None.
Proof.
  intros Hp Hd. apply orb_false_iff in scheme_clash as [_ Htail].
  pose proof (detect_prefix _ Hd) as Hs.
  apply (prefix_of_sub p r p_nonempty _ _ Htail) in Hs.
  apply starts_with_drop in Hs.
  remember (drop (length (str "ftp://")) u) as rest eqn:Hrest. clear Hrest.
  subst u. apply detect_app.
  change (str "ftp://" ++ rest)
    with (102%N :: tl (str "ftp://") ++ rest) in Hp, Hd.
  rewrite (sub_keeps_prefix_from p r _ _ _ Hp scheme_tail) in Hd.
  change (102%N :: tl (str "ftp://") ++ sub (Literal p) r rest)
    with (str "ftp://" ++ sub (Literal p) r rest) in Hd.
  apply detect_app in Hd as [c [y' [E Hc]]].
  rewrite (sub_head p r p_nonempty) in E.
  destruct (starts_with p rest) eqn:Hpr.
  - apply starts_with_drop in Hpr. rewrite Hpr.
    destruct p as [|a p']; [contradiction|]. simpl. eauto.
  - destruct rest as [|c' rest']; [discriminate|].
    injection E as -> _. eauto.
Qed.

(** One substitution takes its own pattern off the list of the literals
    that cover the matches of the detection pattern. *)
Lemma covered_step (known : list text) (s : text) :
  (forall q, In q known ->
     existsb (fun t' => agree t' p) (suffixes (tl q)) = false) ->
  covered (p :: known) s ->
  covered known (sub (Literal p) r s).
Proof.
  intros Hknown Hcov j Hd.
  pose proof scheme_clash as Hclash.
  apply orb_false_iff in Hclash as [Hhead _].
  destruct (sub_origin p r p_nonempty _ s j Hhead (detect_prefix _ Hd))
    as [i [E Hpi]].
  rewrite E in Hd |- *.
  apply (detection_reflected _ Hpi) in Hd.
  destruct (Hcov i Hd) as [q [[<-|Hq] Hqi]]; [congruence|].
  exists q. split; [exact Hq|].
  apply starts_with_drop in Hqi. revert Hpi. rewrite Hqi.
  generalize (drop (length q) (drop i s)). intros rest Hpi.
  destruct q as [|a t]; [reflexivity|].
  change ((a :: t) ++ rest) with (a :: t ++ rest) in Hpi |- *.
  rewrite (sub_keeps_prefix_from p r _ _ _ Hpi (Hknown _ Hq)).
  apply (starts_with_app (a :: t)).
Qed.

End Step.

Lemma scheme_no_clash rule :
  In rule (URL_REPLACEMENTS ++ BUG_FIXES) ->
  clash (str "ftp://") (str (snd rule)) = false.
Proof.
  intros H. pose proof scheme_table as T.
  apply andb_true_iff in T as [T _].
  rewrite forallb_forall in T. apply negb_true_iff, T, H.
Qed.

Lemma pattern_facts q :
  In q patterns ->
  existsb (fun t' => agree t' q) (suffixes (tl (str "ftp://"))) = false
  /\ match q with c :: _ => not_url_char c = false | [] => False end
  /\ forall q', In q' patterns ->
       existsb (fun t' => agree t' q) (suffixes (tl q')) = false.
Proof.
  intros H. pose proof scheme_table as T.
  apply andb_true_iff in T as [_ T].
  rewrite forallb_forall in T. specialize (T q H).
  apply andb_true_iff in T as [T Tall]. apply andb_true_iff in T as [Tt Th].
  split; [apply negb_true_iff, Tt|]. split.
  - destruct q; [discriminate|]. apply negb_true_iff, Th.
  - intros q' Hq'. rewrite forallb_forall in Tall.
    apply negb_true_iff, Tall, Hq'.
Qed.

(** A loop of [apply_patch] whose patterns cover the matches of the
    detection pattern leaves none of them. *)
Lemma fold_covered kind rules state :
  (forall rule, In rule rules -> In rule (URL_REPLACEMENTS ++ BUG_FIXES)) ->
  covered (map (fun rule => unescape (str (fst rule))) rules) (fst state) ->
  covered [] (fst (fold_left (apply_rule kind) rules state)).
Proof.
  revert state. induction rules as [|rule rules IH]; intros state Hin Hcov.
  - exact Hcov.
  - simpl. assert (Hrule : In rule (URL_REPLACEMENTS ++ BUG_FIXES))
      by (apply Hin; left; reflexivity).
    destruct (pattern_facts _ (pattern_of_rule _ Hrule)) as [Ht [Hh _]].
    apply IH; [intros rule' H'; apply Hin; right; exact H'|].
    rewrite (apply_rule_text _ _ _ (rule_nonempty _ Hrule)).
    apply covered_step.
    + apply rule_nonempty, Hrule.
    + apply scheme_no_clash, Hrule.
    + exact Ht.
    + exact Hh.
    + intros q Hq. apply in_map_iff in Hq as [rule' [<- H']].
      apply (pattern_facts _ (pattern_of_rule _ Hrule)).
      apply pattern_of_rule, Hin. right. exact H'.
    + exact Hcov.
Qed.

Lemma known_hosts_covered (content : text) :
  known_hosts_only content = true ->
  covered (map (fun rule => unescape (str (fst rule))) URL_REPLACEMENTS)
          content.
Proof.
  unfold known_hosts_only. rewrite forallb_forall. intros H i Hd.
  destruct (decide (i < length content)) as [Hi|Hi].
  - specialize (H _ (suffixes_drop content i Hi)).
    destruct (match_at ftp_pattern (drop i content)); [|contradiction].
    apply existsb_exists in H as [rule [Hin Hrule]].
    exists (unescape (str (fst rule))). split; [|exact Hrule].
    apply in_map_iff. eauto.
  - rewrite drop_ge in Hd by lia. contradiction.
Qed.

Lemma covered_nil_findall (s : text) :
  covered [] s -> findall ftp_pattern s = [].
Proof.
  intros H. apply findall_empty_iff; [reflexivity|]. intros i.
  destruct (match_at ftp_pattern (drop i s)) eqn:Hm; [|reflexivity].
  destruct (H i) as [q [[] _]]. rewrite Hm. discriminate.
Qed.

Lemma known_hosts_patched (content : text) :
  known_hosts_only content = true ->
  findall ftp_pattern (fst (apply_rules content)) = [].
Proof.
  intros H. apply covered_nil_findall. unfold apply_rules.
  assert (Hnone : covered []
            (fst (fold_left (apply_rule URL) URL_REPLACEMENTS (content, [])))).
  { apply fold_covered.
    - intros rule Hin. apply in_or_app. auto.
    - apply known_hosts_covered, H. }
  apply fold_covered.
  - intros rule Hin. apply in_or_app. auto.
  - intros i Hd. destruct (Hnone i Hd) as [q [[] _]].
Qed.

(** X8: when at every place of the target where the detection pattern
    matches a pattern of [URL_REPLACEMENTS] matches too, the target
    that [apply_patch] leaves passes [verify_patch]. *)
Theorem known_hosts_verify_clean (content : text) pristine bk out :
  known_hosts_only content = true ->
  fst (verify_patch
         (snd (apply_patch false (World (Some content) pristine bk out))))
  = Return true.
Proof.
  intros H.
  pose proof (apply_patch_target content pristine bk out) as Htarget.
  destruct (snd (apply_patch false (World (Some content) pristine bk out)))
    as [target pristine' bk' out'].
  simpl in Htarget. subst target.
  rewrite verify_patch_ok, (known_hosts_patched _ H). reflexivity.
Qed.

Lemma known_hosts_verify_clean_witness :
  fst (verify_patch
         (snd (apply_patch false
                 (World
                    (Some (str "'ftp://ftp.genome.jp/x' ftp://bcb.unl.edu/dbCAN2/"))
                    None ∅ []))))
  = Return true.
Proof.
  apply (known_hosts_verify_clean
           (str "'ftp://ftp.genome.jp/x' ftp://bcb.unl.edu/dbCAN2/")
           None ∅ []).
  vm_compute. reflexivity.
Defined.

(** X9: whatever FTP URL is left after the rules starts with no pattern
    of [URL_REPLACEMENTS]: the residue has hosts the table does not
    know. *)
Theorem residue_has_unknown_hosts (content : text) :
  Forall (fun url =>
            Forall (fun rule =>
                      starts_with (unescape (str (fst rule))) url = false)
                   URL_REPLACEMENTS)
         (findall ftp_pattern (fst (apply_rules content))).
Proof.
  eapply List.Forall_impl;
    [|apply (findall_occurs ftp_pattern (fst (apply_rules content)) eq_refl)].
  intros url [i Hi]. apply List.Forall_forall. intros rule Hin.
  destruct (starts_with _ url) eqn:Hp; [|reflexivity].
  pose proof (starts_with_trans _ _ _ Hp Hi) as Hocc.
  rewrite (apply_rules_absent content (unescape (str (fst rule)))) in Hocc;
    [discriminate|].
  apply pattern_of_rule, in_or_app. auto.
Qed.

(** X10: [apply_patch] returns false, no change needed, exactly when no
    pattern of the two tables occurs anywhere in the target. *)
Theorem no_changes_iff_no_pattern dry_run (content : text) pristine bk out :
  fst (apply_patch dry_run (World (Some content) pristine bk out))
  = Return false
  <-> forall q, In q patterns -> Spec.absent q content.
Proof.
  rewrite apply_patch_ok. split.
  - intros H q Hq.
    destruct (snd (apply_rules content)) eqn:Hc.
    + pose proof (apply_rules_absent content q Hq) as Habs.
      rewrite (apply_rules_no_changes _ Hc) in Habs. exact Habs.
    + destruct dry_run; discriminate.
  - intros H. rewrite (apply_rules_idle _ H). reflexivity.
Qed.

(** What one loop adds to the Change Record. *)
Lemma fold_record kind rules state :
  exists added,
    snd (fold_left (apply_rule kind) rules state) = snd state ++ added
    /\ sublist (map (fun c => (change_type c,
                               (change_pattern c, change_replacement c)))
                    added)
               (map (pair kind) rules)
    /\ Forall (fun c => 1 <= change_count c) added.
Proof.
  revert state. induction rules as [|[pattern replacement] rules IH];
    intros [current record]; simpl.
  - exists []. rewrite app_nil_r. repeat constructor.
  - destruct (findall (compile (str pattern)) current) as [|m ms] eqn:Hf.
    + destruct (IH (current, record)) as [added [E [Hs Hc]]].
      exists added. split; [exact E|]. split; [|exact Hc].
      apply sublist_cons, Hs.
    + destruct (IH (sub (compile (str pattern)) (str replacement) current,
                    record ++ [Change kind pattern replacement
                                      (length (m :: ms))]))
        as [added [E [Hs Hc]]].
      exists (Change kind pattern replacement (length (m :: ms)) :: added).
      split; [rewrite E; simpl; rewrite <- app_assoc; reflexivity|].
      split; [apply sublist_skip, Hs|].
      constructor; [simpl; lia|exact Hc].
Qed.

(** X11: the Change Record holds at most one entry for a rule, its
    entries come in the order of the Rule Set, and every count in it is
    positive. *)
Theorem change_record_follows_rule_set (content : text) :
  sublist (map (fun c => (change_type c,
                          (change_pattern c, change_replacement c)))
               (snd (apply_rules content)))
          Spec.rule_set
  /\ Forall (fun c => 1 <= change_count c) (snd (apply_rules content)).
Proof.
  unfold apply_rules, Spec.rule_set.
  destruct (fold_record URL URL_REPLACEMENTS (content, []))
    as [added [E [Hs Hc]]].
  destruct (fold_record BUG BUG_FIXES
              (fold_left (apply_rule URL) URL_REPLACEMENTS (content, [])))
    as [added' [E' [Hs' Hc']]].
  rewrite E', E. cbn [snd]. rewrite app_nil_l, map_app. split.
  - apply sublist_app; assumption.
  - apply Forall_app. split; assumption.
Qed.

End PatchMore.

(** ** More on the backup manager and on what the methods leave alone *)

Module BackupMore.

Import Re DRAMPatcher PatchFacts MethodFacts.

(** X1: [create_backup] on an existing target returns the path of the
    timestamped copy, leaves the target as it is, makes the copy under
    its timestamp equal to the target, and touches the directory of no
    other timestamp. *)
Theorem create_backup_copies_target now (content : text) pristine bk out :
  let w := World (Some content) pristine bk out in
  let w' := snd (create_backup now w) in
  fst (create_backup now w) = Return (BackupFile now)
  /\ handler_file w' = Some content
  /\ lookup_file (BackupFile now) w' = Some content
  /\ delete now (backups w') = delete now bk.
Proof.
  intros w w'. subst w w'. rewrite create_backup_ok. simpl.
  rewrite lookup_insert_eq, delete_insert_eq. repeat split.
Qed.

(** X2: when the target does not exist, [create_backup] raises
    [FileNotFoundError]; the directory of the timestamp has been made by
    then and stays, with whatever it held; no pristine snapshot is
    written, no other directory is touched and nothing is printed. *)
Theorem create_backup_of_missing_target now pristine bk out :
  let w := World None pristine bk out in
  let w' := snd (create_backup now w) in
  fst (create_backup now w) = Raise (FileNotFoundError HandlerFile)
  /\ is_Some (backups w' !! now)
  /\ lookup_file (BackupFile now) w' = lookup_file (BackupFile now) w
  /\ delete now (backups w') = delete now bk
  /\ handler_file w' = None
  /\ original_backup w' = pristine
  /\ stdout w' = out.
Proof.
  intros w w'. subst w w'. rewrite create_backup_missing. simpl.
  destruct (bk !! now) as [dir|] eqn:Hb; simpl.
  - rewrite !Hb. repeat split; eauto.
  - rewrite lookup_insert_eq, delete_insert_eq, ?Hb. repeat split; eauto.
Qed.

(** X3: with a pristine snapshot, [restore_backup] returns true and
    makes the target equal to the snapshot whatever the target was, a
    missing file included; the snapshots stay as they are. *)
Theorem restore_backup_overwrites_target w (pristine : text) :
  original_backup w = Some pristine ->
  fst (restore_backup w) = Return true
  /\ handler_file (snd (restore_backup w)) = Some pristine
  /\ original_backup (snd (restore_backup w)) = Some pristine
  /\ backups (snd (restore_backup w)) = backups w.
Proof.
  destruct w as [target o bk out]. simpl. intros ->.
  rewrite restore_backup_ok. repeat split.
Qed.

Lemma restore_backup_overwrites_target_witness :
  fst (restore_backup (World None (Some (str "import os")) ∅ []))
  = Return true
  /\ handler_file (snd (restore_backup
                          (World None (Some (str "import os")) ∅ [])))
     = Some (str "import os")
  /\ original_backup (snd (restore_backup
                             (World None (Some (str "import os")) ∅ [])))
     = Some (str "import os")
  /\ backups (snd (restore_backup
                     (World None (Some (str "import os")) ∅ [])))
     = backups (World None (Some (str "import os")) ∅ []).
Proof.
  apply (restore_backup_overwrites_target
           (World None (Some (str "import os")) ∅ []) (str "import os")).
  reflexivity.
Defined.

(** X4: a second [restore_backup] returns what the first returned and
    changes no file: repeated restores settle on the pristine content. *)
Theorem restore_backup_twice w :
  let w1 := snd (restore_backup w) in
  let w2 := snd (restore_backup w1) in
  fst (restore_backup w1) = fst (restore_backup w)
  /\ handler_file w2 = handler_file w1
  /\ original_backup w2 = original_backup w1
  /\ backups w2 = backups w1.
Proof.
  destruct w as [target [pristine|] bk out].
  - rewrite restore_backup_ok. simpl. repeat split.
  - rewrite restore_backup_none. simpl. repeat split.
Qed.

(** X5: [apply_patch] changes no snapshot, in either mode and whether
    it returns or raises; on a missing target it raises
    [FileNotFoundError] and the world is what it was. *)
Theorem apply_patch_keeps_snapshots dry_run w :
  original_backup (snd (apply_patch dry_run w)) = original_backup w
  /\ backups (snd (apply_patch dry_run w)) = backups w
  /\ match handler_file w with
     | Some _ => exists changed, fst (apply_patch dry_run w) = Return changed
     | None =>
         apply_patch dry_run w = (Raise (FileNotFoundError HandlerFile), w)
     end.
Proof.
  destruct w as [[content|] pristine bk out]; [|repeat split].
  rewrite apply_patch_ok. simpl.
  destruct (snd (apply_rules content)); [repeat split; eauto|].
  destruct dry_run; repeat split; eauto.
Qed.

(** X6: on a missing target [analyze_file] and [verify_patch] raise
    [FileNotFoundError] before they print, and the world is what it
    was. *)
Theorem reading_missing_target_raises pristine bk out :
  let w := World None pristine bk out in
  analyze_file w = (Raise (FileNotFoundError HandlerFile), w)
  /\ verify_patch w = (Raise (FileNotFoundError HandlerFile), w).
Proof. split; reflexivity. Qed.

(** X7: after [create_backup] and [apply_patch] the copy under the
    timestamp and the pristine snapshot of a first run both hold the
    content the target had before the patch. *)
Theorem snapshots_hold_content_before_patch now dry_run (content : text)
    bk out :
  let w := World (Some content) None bk out in
  let w' := snd (apply_patch dry_run (snd (create_backup now w))) in
  lookup_file (BackupFile now) w' = Some content
  /\ original_backup w' = Some content.
Proof.
  intros w w'. subst w w'. rewrite create_backup_ok. cbn [snd].
  rewrite apply_patch_ok.
  destruct (snd (apply_rules content)); simpl;
    [|destruct dry_run; simpl]; rewrite lookup_insert_eq; split; reflexivity.
Qed.

End BackupMore.

(** ** The script *)

Module MainFacts.

Import Re ReFacts DRAMPatcher PatchFacts MethodFacts Main.

Ltac script_step :=
  unfold restore_mode, verify_only_mode, patch_mode, and_then, say, call,
    done, fail;
  cbn [files console fst snd negb].

(** [__init__] touches no file, and what it returns does not depend on
    the session. *)
Lemma init_result env provided s :
  (exists dram_path lines,
     __init__ env provided s
     = (Done dram_path, Session (files s) (console s ++ lines)))
  \/ (exists e, __init__ env provided s = (Failed e, s)).
Proof.
  unfold __init__, _find_dram_path.
  destruct provided as [[|c rest]|];
    try (destruct (mag_annotator env) as [auto_path|];
         [left; exists auto_path; eexists; reflexivity
         |right; eexists; reflexivity]).
  destruct (dir_exists env (String c rest)).
  - left. exists (String c rest), []. rewrite app_nil_r.
    destruct s. reflexivity.
  - right. eexists. reflexivity.
Qed.

Lemma init_any_session env provided s s' :
  fst (__init__ env provided s) = fst (__init__ env provided s').
Proof.
  unfold __init__, _find_dram_path.
  destruct provided as [[|c rest]|];
    try (destruct (mag_annotator env); reflexivity).
  destruct (dir_exists env (String c rest)); reflexivity.
Qed.

(** [main] once the installation is found: the mode that the arguments
    select, run on a session with the same files. *)
Lemma main_after_init env now args s dram_path :
  fst (__init__ env (arg_dram_path args) s) = Done dram_path ->
  exists s1,
    files s1 = files s
    /\ main env now args s
       = match (if arg_restore args then restore_mode
                else if arg_verify_only args then verify_only_mode
                else patch_mode now args) s1 with
         | (Done code, s') => (code, s')
         | (Failed e, s') =>
             (1, Session (files s')
                   (console s' ++ [(length (stdout (files s')), ErrorLine e)]))
         end.
Proof.
  intros Hinit. unfold main, main_try.
  destruct (init_result env (arg_dram_path args)
              (Session (files s) (console s ++ [(length (stdout (files s)),
                                                 Initializing)])))
    as [[p [lines E]]|[e E]].
  - script_step. rewrite E. script_step.
    eexists. split; [|reflexivity]. reflexivity.
  - rewrite (init_any_session _ _ s
               (Session (files s) (console s ++ [(length (stdout (files s)),
                                                  Initializing)]))) in Hinit.
    rewrite E in Hinit. discriminate.
Qed.

Lemma main_without_init env now args s e :
  fst (__init__ env (arg_dram_path args) s) = Failed e ->
  main env now args s
  = (1, Session (files s)
          (console s ++ [(length (stdout (files s)), Initializing)]
           ++ [(length (stdout (files s)), ErrorLine e)])).
Proof.
  intros Hinit. unfold main, main_try.
  rewrite (init_any_session _ _ s
             (Session (files s) (console s ++ [(length (stdout (files s)),
                                                Initializing)]))) in Hinit.
  destruct (init_result env (arg_dram_path args)
              (Session (files s) (console s ++ [(length (stdout (files s)),
                                                 Initializing)])))
    as [[p [lines E]]|[e' E]]; rewrite E in Hinit; [discriminate|].
  injection Hinit as ->.
  script_step. rewrite E. cbn [files console].
  rewrite <- app_assoc. reflexivity.
Qed.

(** The restore mode, on any session. *)
Lemma restore_mode_files s :
  fst (restore_mode s) = Done 0
  /\ handler_file (files (snd (restore_mode s)))
     = match original_backup (files s) with
       | Some pristine => Some pristine
       | None => handler_file (files s)
       end
  /\ original_backup (files (snd (restore_mode s))) = original_backup (files s)
  /\ backups (files (snd (restore_mode s))) = backups (files s).
Proof.
  destruct s as [[target [pristine|] bk out] lines]; script_step.
  - rewrite restore_backup_ok. script_step.
    rewrite verify_patch_ok. script_step. repeat split.
  - rewrite restore_backup_none. script_step. repeat split.
Qed.

(** The verify-only mode. *)
Lemma verify_only_mode_files s :
  match handler_file (files s) with
  | Some _ => fst (verify_only_mode s) = Done 0
  | None =>
      fst (verify_only_mode s)
      = Failed (MethodError (FileNotFoundError HandlerFile))
      /\ stdout (files (snd (verify_only_mode s))) = stdout (files s)
  end
  /\ handler_file (files (snd (verify_only_mode s))) = handler_file (files s)
  /\ original_backup (files (snd (verify_only_mode s)))
     = original_backup (files s)
  /\ backups (files (snd (verify_only_mode s))) = backups (files s).
Proof.
  destruct s as [[[content|] pristine bk out] lines]; script_step.
  - rewrite analyze_file_ok. script_step.
    rewrite verify_patch_ok. script_step. repeat split.
  - repeat split.
Qed.

(** The patch mode on an existing target. *)
Lemma patch_mode_files now args s (content : text) pristine bk out :
  files s = World (Some content) pristine bk out ->
  let found := findall ftp_pattern content in
  let s' := snd (patch_mode now args s) in
  fst (patch_mode now args s) = Done 0
  /\ handler_file (files s')
     = match found with
       | [] => Some content
       | _ :: _ =>
           if arg_dry_run args then Some content
           else Some (fst (apply_rules content))
       end
  /\ original_backup (files s')
     = match found with
       | [] => pristine
       | _ :: _ =>
           if arg_no_backup args then pristine
           else Some (match pristine with
                      | Some old => old
                      | None => content
                      end)
       end
  /\ backups (files s')
     = match found with
       | [] => bk
       | _ :: _ =>
           if arg_no_backup args then bk else <[now := Some content]> bk
       end.
Proof.
  destruct s as [w lines]. cbn [files]. intros ->. cbv zeta.
  script_step. rewrite analyze_file_ok. script_step.
  destruct (findall ftp_pattern content) as [|url urls];
    script_step; [repeat split|].
  assert (Hsame : snd (apply_rules content) = [] ->
                  content = fst (apply_rules content)).
  { intros H. rewrite (apply_rules_no_changes _ H). reflexivity. }
  destruct (arg_no_backup args); script_step;
    rewrite ?create_backup_ok; script_step;
    rewrite apply_patch_ok;
    destruct (snd (apply_rules content)) as [|change changes] eqn:Hc;
    script_step;
    try (destruct (arg_dry_run args); script_step;
         rewrite ?verify_patch_ok; script_step; repeat split);
    destruct (arg_dry_run args); repeat split;
    cbn [handler_file]; f_equal; auto.
Qed.

(** The patch mode on a missing target. *)
Lemma patch_mode_missing now args s pristine bk out :
  files s = World None pristine bk out ->
  fst (patch_mode now args s)
  = Failed (MethodError (FileNotFoundError HandlerFile))
  /\ files (snd (patch_mode now args s)) = files s.
Proof.
  destruct s as [w lines]. cbn [files]. intros ->. split; reflexivity.
Qed.

(** X12: a path given on the command line that does not exist makes
    [main] return 1 without touching a file, whether or not the module
    could have been found by import: there is no fallback. *)
Theorem main_rejects_missing_path env now args s c rest :
  arg_dram_path args = Some (String c rest) ->
  dir_exists env (String c rest) = false ->
  fst (main env now args s) = 1
  /\ files (snd (main env now args s)) = files s.
Proof.
  intros Hpath Hdir.
  rewrite (main_without_init env now args s
             (ProvidedPathDoesNotExist (String c rest))).
  - split; reflexivity.
  - unfold __init__, _find_dram_path. rewrite Hpath, Hdir. reflexivity.
Qed.

Lemma main_rejects_missing_path_witness :
  fst (main (Environment (fun _ => false) (Some "/site-packages/mag_annotator"))
            "20250101_120000"
            (Namespace (Some "/nowhere") false false false false)
            (Session (World (Some (str "ftp://ftp.genome.jp/")) None ∅ []) []))
  = 1
  /\ files (snd (main (Environment (fun _ => false)
                                   (Some "/site-packages/mag_annotator"))
                      "20250101_120000"
                      (Namespace (Some "/nowhere") false false false false)
                      (Session (World (Some (str "ftp://ftp.genome.jp/"))
                                      None ∅ []) [])))
     = files (Session (World (Some (str "ftp://ftp.genome.jp/")) None ∅ []) []).
Proof.
  apply (main_rejects_missing_path
           (Environment (fun _ => false) (Some "/site-packages/mag_annotator"))
           "20250101_120000"
           (Namespace (Some "/nowhere") false false false false)
           (Session (World (Some (str "ftp://ftp.genome.jp/")) None ∅ []) [])
           "/"%char "nowhere"%string); reflexivity.
Defined.

(** X13: without a path, or with the empty string for a path, and
    without an importable module, [main] returns 1 and touches no
    file. *)
Theorem main_fails_without_module env now args s :
  arg_dram_path args = None \/ arg_dram_path args = Some ""%string ->
  mag_annotator env = None ->
  fst (main env now args s) = 1
  /\ files (snd (main env now args s)) = files s.
Proof.
  intros Hpath Hmod.
  rewrite (main_without_init env now args s CouldNotAutoDetect).
  - split; reflexivity.
  - unfold __init__, _find_dram_path.
    destruct Hpath as [-> | ->]; rewrite Hmod; reflexivity.
Qed.

Lemma main_fails_without_module_witness :
  fst (main (Environment (fun _ => true) None) "20250101_120000"
            (Namespace (Some "") false false false false)
            (Session (World (Some (str "ftp://ftp.genome.jp/")) None ∅ []) []))
  = 1
  /\ files (snd (main (Environment (fun _ => true) None) "20250101_120000"
                      (Namespace (Some "") false false false false)
                      (Session (World (Some (str "ftp://ftp.genome.jp/"))
                                      None ∅ []) [])))
     = files (Session (World (Some (str "ftp://ftp.genome.jp/")) None ∅ []) []).
Proof.
  apply (main_fails_without_module
           (Environment (fun _ => true) None) "20250101_120000"
           (Namespace (Some "") false false false false)
           (Session (World (Some (str "ftp://ftp.genome.jp/")) None ∅ []) []));
    [right; reflexivity | reflexivity].
Defined.

(** X14: once the installation is found and the target exists, [main]
    returns 0 in every mode, also when [verify_patch] warns that FTP
    URLs remain. *)
Theorem main_returns_zero env now args s dram_path (content : text) :
  fst (__init__ env (arg_dram_path args) s) = Done dram_path ->
  handler_file (files s) = Some content ->
  fst (main env now args s) = 0.
Proof.
  intros Hinit Htarget.
  destruct (main_after_init env now args s dram_path Hinit) as [s1 [Hf ->]].
  rewrite <- Hf in Htarget.
  destruct (arg_restore args); [|destruct (arg_verify_only args)].
  - destruct (restore_mode_files s1) as [H _].
    destruct (restore_mode s1) as [[code|e] s']; simpl in H; [|discriminate].
    injection H as ->. reflexivity.
  - pose proof (verify_only_mode_files s1) as [H _]. rewrite Htarget in H.
    destruct (verify_only_mode s1) as [[code|e] s']; simpl in H;
      [|discriminate].
    injection H as ->. reflexivity.
  - destruct (files s1) as [target pristine bk out] eqn:Hw.
    simpl in Htarget. subst target.
    destruct (patch_mode_files now args s1 content pristine bk out Hw)
      as [H _].
    destruct (patch_mode now args s1) as [[code|e] s']; simpl in H;
      [|discriminate].
    injection H as ->. reflexivity.
Qed.

Lemma main_returns_zero_witness :
  fst (main (Environment (fun _ => true) None) "20250101_120000"
            (Namespace (Some "/opt/dram") false false false false)
            (Session (World (Some (str "x = 'ftp://example.org/db'")) None ∅ [])
                     []))
  = 0.
Proof.
  apply (main_returns_zero
           (Environment (fun _ => true) None) "20250101_120000"
           (Namespace (Some "/opt/dram") false false false false)
           (Session (World (Some (str "x = 'ftp://example.org/db'")) None ∅ [])
                    [])
           "/opt/dram"%string (str "x = 'ftp://example.org/db'"));
    reflexivity.
Defined.

(** [main] in the normal patch mode, on an existing target. *)
Lemma main_patch_mode env now args s dram_path
    (content : text) pristine bk out :
  fst (__init__ env (arg_dram_path args) s) = Done dram_path ->
  arg_restore args = false ->
  arg_verify_only args = false ->
  files s = World (Some content) pristine bk out ->
  let found := findall ftp_pattern content in
  let s' := snd (main env now args s) in
  fst (main env now args s) = 0
  /\ handler_file (files s')
     = match found with
       | [] => Some content
       | _ :: _ =>
           if arg_dry_run args then Some content
           else Some (fst (apply_rules content))
       end
  /\ original_backup (files s')
     = match found with
       | [] => pristine
       | _ :: _ =>
           if arg_no_backup args then pristine
           else Some (match pristine with
                      | Some old => old
                      | None => content
                      end)
       end
  /\ backups (files s')
     = match found with
       | [] => bk
       | _ :: _ =>
           if arg_no_backup args then bk else <[now := Some content]> bk
       end.
Proof.
  intros Hinit Hr Hv Hw.
  destruct (main_after_init env now args s dram_path Hinit) as [s1 [Hf ->]].
  rewrite Hr, Hv. rewrite <- Hf in Hw.
  pose proof (patch_mode_files now args s1 content pristine bk out Hw) as H.
  cbv zeta in H |- *.
  destruct (patch_mode now args s1) as [[code|e] s']; cbn [fst snd] in H |- *;
    destruct H as [H0 H]; [|discriminate].
  injection H0 as ->. split; [reflexivity|exact H].
Qed.



(** X16: in the normal mode, when [analyze_file] finds no FTP URL,
    [main] returns 0 and changes no file; a bug-fix pattern in the
    target is then left alone, [apply_patch] is not called. *)
Theorem main_nothing_to_do env now args s dram_path
    (content : text) pristine bk out :
  fst (__init__ env (arg_dram_path args) s) = Done dram_path ->
  arg_restore args = false ->
  arg_verify_only args = false ->
  files s = World (Some content) pristine bk out ->
  findall ftp_pattern content = [] ->
  let s' := snd (main env now args s) in
  fst (main env now args s) = 0
  /\ handler_file (files s') = Some content
  /\ original_backup (files s') = pristine
  /\ backups (files s') = bk.
Proof.
  intros Hinit Hr Hv Hw Hnone.
  pose proof (main_patch_mode env now args s dram_path content pristine bk out
                Hinit Hr Hv Hw) as H.
  cbv zeta in H |- *. rewrite Hnone in H. exact H.
Qed.

Lemma main_nothing_to_do_witness :
  let env := Environment (fun _ => true) None in
  let args := Namespace (Some "/opt/dram") false false false false in
  let content := str "path.join(hmm_dir, 'VOG*.hmm')" in
  let s := Session (World (Some content) None ∅ []) [] in
  let s' := snd (main env "20250101_120000" args s) in
  fst (main env "20250101_120000" args s) = 0
  /\ handler_file (files s') = Some content
  /\ original_backup (files s') = None
  /\ backups (files s') = ∅.
Proof.
  apply (main_nothing_to_do
           (Environment (fun _ => true) None) "20250101_120000"
           (Namespace (Some "/opt/dram") false false false false)
           (Session (World (Some (str "path.join(hmm_dir, 'VOG*.hmm')"))
                           None ∅ []) [])
           "/opt/dram"%string (str "path.join(hmm_dir, 'VOG*.hmm')")
           None ∅ []); reflexivity.
Defined.







Lemma files_after_try (r : script_outcome nat * session) :
  files (snd (match r with
              | (Done code, s') => (code, s')
              | (Failed e, s') =>
                  (1, Session (files s')
                        (console s'
                         ++ [(length (stdout (files s')), ErrorLine e)]))
              end))
  = files (snd r).
Proof. destruct r as [[code|e] s']; reflexivity. Qed.

(** X20: outside the restore mode, a missing target makes [main] return
    1, and no file and no line of the methods is added or changed. *)
Theorem main_missing_target env now args s dram_path :
  fst (__init__ env (arg_dram_path args) s) = Done dram_path ->
  arg_restore args = false ->
  handler_file (files s) = None ->
  fst (main env now args s) = 1
  /\ files (snd (main env now args s)) = files s.
Proof.
  intros Hinit Hr Hnone.
  destruct (main_after_init env now args s dram_path Hinit) as [s1 [Hf ->]].
  rewrite Hr, <- Hf. rewrite <- Hf in Hnone. clear Hf.
  destruct (files s1) as [target pristine bk out] eqn:Hw.
  cbn [handler_file] in Hnone. subst target.
  destruct (arg_verify_only args).
  - pose proof (verify_only_mode_files s1) as H. rewrite Hw in H.
    cbn [handler_file original_backup backups stdout] in H.
    destruct (verify_only_mode s1) as [[code|e] s']; cbn [fst snd] in H |- *;
      destruct H as [[H0 Hout] [Hh [Ho Hb]]]; [discriminate|].
    split; [reflexivity|]. cbn [files].
    destruct (files s') as [target' pristine' bk' out'].
    cbn [handler_file original_backup backups stdout] in *. congruence.
  - destruct (patch_mode_missing now args s1 pristine bk out Hw) as [H0 Hfiles].
    destruct (patch_mode now args s1) as [[code|e] s']; cbn [fst snd] in *;
      [discriminate|].
    split; [reflexivity|]. cbn [files]. rewrite Hfiles. exact Hw.
Qed.

Lemma main_missing_target_witness :
  fst (main (Environment (fun _ => true) None) "20250101_120000"
         (Namespace (Some "/opt/dram") false false false true)
         (Session (World None (Some (str "pristine")) ∅ []) []))
  = 1
  /\ files (snd (main (Environment (fun _ => true) None) "20250101_120000"
                   (Namespace (Some "/opt/dram") false false false true)
                   (Session (World None (Some (str "pristine")) ∅ []) [])))
     = files (Session (World None (Some (str "pristine")) ∅ []) []).
Proof.
  apply (main_missing_target
           (Environment (fun _ => true) None) "20250101_120000"
           (Namespace (Some "/opt/dram") false false false true)
           (Session (World None (Some (str "pristine")) ∅ []) [])
           "/opt/dram"%string); reflexivity.
Defined.

(** X21: with [--restore], [--verify-only] or [--no-backup], [main]
    writes no snapshot: the pristine snapshot and the timestamped
    copies are what they were, whatever happens to the target. *)
Theorem main_keeps_snapshots env now args s :
  arg_restore args || arg_verify_only args || arg_no_backup args = true ->
  original_backup (files (snd (main env now args s)))
  = original_backup (files s)
  /\ backups (files (snd (main env now args s))) = backups (files s).
Proof.
  intros Hflags.
  destruct (init_result env (arg_dram_path args) s) as [[p [lines E]]|[e E]].
  - assert (Hinit : fst (__init__ env (arg_dram_path args) s) = Done p)
      by (rewrite E; reflexivity).
    destruct (main_after_init env now args s p Hinit) as [s1 [Hf ->]].
    rewrite files_after_try, <- Hf. clear Hf E Hinit.
    destruct (arg_restore args); [|destruct (arg_verify_only args)].
    + destruct (restore_mode_files s1) as [_ [_ [Ho Hb]]]. split; assumption.
    + destruct (verify_only_mode_files s1) as [_ [_ [Ho Hb]]].
      split; assumption.
    + cbn [orb] in Hflags.
      destruct (files s1) as [[content|] pristine bk out] eqn:Hw.
      * pose proof (patch_mode_files now args s1 content pristine bk out Hw)
          as H.
        cbv zeta in H. rewrite Hflags in H. destruct H as [_ [_ [Ho Hb]]].
        cbn [original_backup backups]. rewrite Ho, Hb.
        destruct (findall ftp_pattern content); split; reflexivity.
      * destruct (patch_mode_missing now args s1 pristine bk out Hw)
          as [_ Hfiles].
        rewrite Hfiles, Hw. split; reflexivity.
  - rewrite (main_without_init env now args s e) by (rewrite E; reflexivity).
    split; reflexivity.
Qed.

Lemma main_keeps_snapshots_witness :
  original_backup
    (files (snd (main (Environment (fun _ => true) None) "20250101_120000"
                   (Namespace (Some "/opt/dram") false true false false)
                   (Session (World (Some (str "ftp://ftp.genome.jp/"))
                                   None ∅ []) []))))
  = original_backup
      (files (Session (World (Some (str "ftp://ftp.genome.jp/")) None ∅ []) []))
  /\ backups
       (files (snd (main (Environment (fun _ => true) None) "20250101_120000"
                      (Namespace (Some "/opt/dram") false true false false)
                      (Session (World (Some (str "ftp://ftp.genome.jp/"))
                                      None ∅ []) []))))
     = backups
         (files (Session (World (Some (str "ftp://ftp.genome.jp/")) None ∅ [])
                         [])).
Proof.
  apply (main_keeps_snapshots
           (Environment (fun _ => true) None) "20250101_120000"
           (Namespace (Some "/opt/dram") false true false false)
           (Session (World (Some (str "ftp://ftp.genome.jp/")) None ∅ []) [])).
  reflexivity.
Defined.

End MainFacts.

(** ** More on the paired reads *)

Module ConcatenateMore.

Import ConcatenateReads.

(** X22: the first [n] records written depend on the first [n] records
    of each input only: the script can stream. *)
Theorem writes_of_prefixes n (forward reverse : list seq_record) :
  writes (take n forward) (take n reverse) = take n (writes forward reverse).
Proof.
  revert forward reverse. induction n as [|n IH]; intros forward reverse.
  - reflexivity.
  - destruct forward as [|f forward]; [reflexivity|].
    destruct reverse as [|r reverse]; [destruct forward; reflexivity|].
    simpl. rewrite IH. reflexivity.
Qed.

(** X23: the output file is empty exactly when one of the two inputs
    holds no record. *)
Theorem output_empty_iff (forward reverse : list seq_record) :
  output forward reverse = [] <-> forward = [] \/ reverse = [].
Proof.
  unfold output. split.
  - destruct forward as [|f forward]; [auto|].
    destruct reverse as [|r reverse]; [auto|].
    simpl. discriminate.
  - intros [-> | ->]; [reflexivity|]. destruct forward; reflexivity.
Qed.

End ConcatenateMore.
